(** * tcping: the probe scheduler, its statistics and its error normalizer

    A shallow embedding of package [ping] (ping/ping.go, ping/utils.go):
    the protocol registry, [Pinger] with [Stop], [Ping], [logStats] and
    [Summarize], [Result.Avg], and the error normalizer [FormatError] /
    [Pinger.formatError].

    Go values are modelled as follows.
    - [int], [int64] and [time.Duration] are [Z] with two's-complement
      wrap-around written out ([wrap64]); [int] is taken 64 bits wide.
    - A run-time panic (integer division by zero, closing a closed
      channel) is [None] in the option monad.
    - [error] interface values are the inductive type [error] below: one
      constructor per dynamic type the code can tell apart, with the
      methods of the Go standard library ([Error], [Timeout], [Temporary],
      [Unwrap], [errors.Is]) written out next to it.
    - [io.Writer] is the list of chunks written so far, one chunk per
      [fmt.Fprintf] / [fmt.Fprint] call. *)

From stdpp Require Import base option list gmap strings sorting.
From Stdlib Require Import ZArith Lia Ascii DecimalString DecimalPos.

#[local] Open Scope string_scope.
#[local] Open Scope Z_scope.
#[local] Set Warnings "-register-all".

(** ** Machine integers *)

Definition MaxInt64 : Z := 9223372036854775807.
Definition MinInt64 : Z := -9223372036854775808.

(** Two's-complement reduction of a mathematical integer to [int64]. *)
Definition wrap64 (z : Z) : Z := (z + 2 ^ 63) mod 2 ^ 64 - 2 ^ 63.

Definition int64_range (z : Z) : Prop := MinInt64 <= z <= MaxInt64.

(** Go's [a / b] on [int64]: truncated quotient, a panic when [b = 0];
    [MinInt64 / -1] wraps. *)
Definition quo64 (a b : Z) : option Z :=
  if b =? 0 then None else Some (wrap64 (Z.quot a b)).

(** ** Strings *)

(** [strings.Contains(s, substr)]. *)
Fixpoint Contains (s substr : string) : bool :=
  String.prefix substr s ||
  match s with
  | EmptyString => false
  | String _ rest => Contains rest substr
  end.

(** Number of runes of a (valid UTF-8) string: the bytes that are not
    continuation bytes [10xxxxxx]. *)
Fixpoint RuneCount (s : string) : nat :=
  match s with
  | EmptyString => 0%nat
  | String c rest =>
      let n := Ascii.nat_of_ascii c in
      ((if (128 <=? n)%nat && (n <? 192)%nat then 0 else 1) + RuneCount rest)%nat
  end.

Fixpoint spaces (n : nat) : string :=
  match n with
  | O => EmptyString
  | S k => String " "%char (spaces k)
  end.

(** The verb [%-Ns]: the string, padded with spaces on the right up to
    [width] runes. *)
Definition padRight (width : nat) (s : string) : string :=
  s +:+ spaces (width - RuneCount s).

(** ** Error values *)

(** [syscall.Errno] numbers (linux). *)
Definition EINTR : Z := 4.
Definition EAGAIN : Z := 11.
Definition ENFILE : Z := 23.
Definition EMFILE : Z := 24.
Definition ECONNABORTED : Z := 103.
Definition ECONNRESET : Z := 104.
Definition ETIMEDOUT : Z := 110.
Definition ECONNREFUSED : Z := 111.

(** The dynamic types of [error] values the package can observe.

    [Foreign] stands for any other implementation: its text, the results
    of its [Timeout] and [Temporary] methods when its type has them, what
    its [Is] method (if any) answers for [context.Canceled] and
    [context.DeadlineExceeded], and what [Unwrap] returns. *)
Inductive error : Type :=
  | EOF                       (* io.EOF *)
  | DeadlineExceeded          (* context.DeadlineExceeded *)
  | Canceled                  (* context.Canceled *)
  | ErrorString (s : string)  (* errors.New(s), a fresh value *)
  | WrapError (msg : string) (Err : error)
                              (* fmt.Errorf with one %w verb; msg is the rendered text *)
  | Errno (n : Z) (text : string)
                              (* syscall.Errno; text is its entry in the errno table *)
  | SyscallError (Syscall : string) (Err : error)            (* *os.SyscallError *)
  | DNSError (Name Server Err : string) (IsTimeout IsTemporary : bool)
                                                             (* *net.DNSError *)
  | OpError (Op Net : string) (Source Addr : option string) (Err : error)
                                                             (* *net.OpError *)
  | UrlError (Op URL : string) (Err : error)                 (* *url.Error *)
  | Foreign (text : string) (timeout temporary : option bool)
            (isCanceled isDeadline : bool) (cause : option error).

Definition is_UrlError (e : error) : bool :=
  match e with UrlError _ _ _ => true | _ => false end.

Definition is_OpError (e : error) : bool :=
  match e with OpError _ _ _ _ _ => true | _ => false end.

(** The assertion [x.(interface{ Timeout() bool })] followed by the call:
    [ok && t.Timeout()]. *)
Definition asserted (m : option bool) : bool := default false m.

(** [Timeout()] of the dynamic type, [None] when the type has no such
    method. *)
Fixpoint Timeout (e : error) : option bool :=
  match e with
  | EOF | Canceled | ErrorString _ | WrapError _ _ => None
  | DeadlineExceeded => Some true
  | Errno n _ => Some ((n =? EAGAIN) || (n =? ETIMEDOUT))
  | SyscallError _ inner => Some (asserted (Timeout inner))
  | DNSError _ _ _ isTimeout _ => Some isTimeout
  | OpError _ _ _ _ inner =>
      Some match inner with
           | SyscallError _ ne => asserted (Timeout ne)
           | _ => asserted (Timeout inner)
           end
  | UrlError _ _ inner => Some (asserted (Timeout inner))
  | Foreign _ t _ _ _ _ => t
  end.

(** [isConnError] of package net. *)
Definition isConnError (e : error) : bool :=
  match e with
  | Errno n _ => (n =? ECONNRESET) || (n =? ECONNABORTED)
  | _ => false
  end.

(** [Temporary()] of the dynamic type, [None] when the type has no such
    method. *)
Fixpoint Temporary (e : error) : option bool :=
  match e with
  | EOF | Canceled | ErrorString _ | WrapError _ _ | SyscallError _ _ => None
  | DeadlineExceeded => Some true
  | Errno n _ =>
      Some ((n =? EINTR) || (n =? EMFILE) || (n =? ENFILE)
            || ((n =? EAGAIN) || (n =? ETIMEDOUT)))
  | DNSError _ _ _ isTimeout isTemporary => Some (isTimeout || isTemporary)
  | OpError op _ _ _ inner =>
      Some (if String.eqb op "accept" && isConnError inner then true
            else
              match inner with
              | SyscallError _ ne => asserted (Temporary ne)
              | _ => asserted (Temporary inner)
              end)
  | UrlError _ _ inner => Some (asserted (Temporary inner))
  | Foreign _ _ t _ _ _ => t
  end.

(** The dynamic type implements [net.Error]: it has [Timeout] and
    [Temporary] (every error has [Error]). *)
Definition is_net_Error (e : error) : bool :=
  match Timeout e, Temporary e with
  | Some _, Some _ => true
  | _, _ => false
  end.

(** The verb [%q] on a string with nothing to escape. *)
Definition quoted (s : string) : string :=
  String (Ascii.ascii_of_nat 34) (s +:+ String (Ascii.ascii_of_nat 34) EmptyString).

(** [err.Error()]. *)
Fixpoint Error_text (e : error) : string :=
  match e with
  | EOF => "EOF"
  | DeadlineExceeded => "context deadline exceeded"
  | Canceled => "context canceled"
  | ErrorString s => s
  | WrapError msg _ => msg
  | Errno _ text => text
  | SyscallError call inner => call +:+ ": " +:+ Error_text inner
  | DNSError name server err _ _ =>
      "lookup " +:+ name
        +:+ (if String.eqb server EmptyString then EmptyString else " on " +:+ server)
        +:+ ": " +:+ err
  | OpError op net source addr inner =>
      op
        +:+ (if String.eqb net EmptyString then EmptyString else " " +:+ net)
        +:+ match source with Some s => " " +:+ s | None => EmptyString end
        +:+ match addr with
            | Some a => (if source is Some _ then "->" else " ") +:+ a
            | None => EmptyString
            end
        +:+ ": " +:+ Error_text inner
  | UrlError op url inner =>
      op +:+ " " +:+ quoted url +:+ ": " +:+ Error_text inner
  | Foreign text _ _ _ _ _ => text
  end.

(** [Unwrap()] where the dynamic type has it. *)
Definition Unwrap (e : error) : option error :=
  match e with
  | WrapError _ inner | SyscallError _ inner | OpError _ _ _ _ inner
  | UrlError _ _ inner => Some inner
  | Foreign _ _ _ _ _ cause => cause
  | _ => None
  end.

(** The two targets the package passes to [errors.Is]. *)
Inductive sentinel : Type := IsCanceled | IsDeadlineExceeded.

(** One layer of [errors.Is]: identity with the target, or the layer's own
    [Is] method. *)
Definition matches (t : sentinel) (e : error) : bool :=
  match t, e with
  | IsCanceled, Canceled => true
  | IsDeadlineExceeded, DeadlineExceeded => true
  | IsCanceled, Foreign _ _ _ c _ _ => c
  | IsDeadlineExceeded, Foreign _ _ _ _ d _ => d
  | _, _ => false
  end.

(** [errors.Is(err, target)]: the check at each layer of the [Unwrap]
    chain. *)
Fixpoint errors_Is (t : sentinel) (e : error) : bool :=
  matches t e ||
  match e with
  | WrapError _ inner | SyscallError _ inner | OpError _ _ _ _ inner
  | UrlError _ _ inner => errors_Is t inner
  | Foreign _ _ _ _ _ (Some inner) => errors_Is t inner
  | _ => false
  end.


(** ** The error normalizer *)

Definition is_EOF (e : error) : bool :=
  match e with EOF => true | _ => false end.

(** The second type switch: [opErr.Err.(type)] for an [*net.OpError]. *)
Definition opErrCategory (err : error) : option string :=
  match err with
  | OpError _ _ _ _ (DNSError _ _ _ _ _) => Some "域名解析错误"
  | OpError _ _ _ _ (SyscallError _ (Errno errno _)) =>
      if errno =? ECONNREFUSED then Some "连接被服务器拒绝"
      else if errno =? ETIMEDOUT then Some "网络连接超时"
      else None
  | _ => None
  end.

(** The chain of [strings.Contains(err.Error(), ...)] tests, in source
    order; the last line is [return err.Error()]. *)
Definition substringCategory (text : string) : string :=
  if Contains text "forcibly closed" then "远程主机强行关闭了现有连接"
  else if Contains text "because it doesn't contain any IP SANs" then "无法验证证书"
  else if Contains text "no such host" then "无效域名"
  else if Contains text "getaddrinfow" then "域名解析错误"
  else if Contains text "closed network connection" then "使用已关闭的网络连接"
  else if Contains text "connection refused" then "连接被拒绝"
  else if Contains text "server gave HTTP response to HTTPS client" then "服务器需要https访问"
  else if Contains text "x509: certificate is not valid" then "无效的网站证书"
  else if Contains text "x509: certificate is valid" then "网站证书不匹配"
  else if Contains text "actively refused it" then "无法建立连接"
  else if Contains text "was forcibly closed by the remote host" then "远程主机强制关闭了现有连接"
  else text.

(** Everything below the first type switch. *)
Definition afterTypeSwitch (err : error) : string :=
  if is_EOF err then "网络主动断开"
  else if is_net_Error err && asserted (Timeout err) then "网络连接超时"
  else if is_net_Error err && asserted (Temporary err) then "网络临时错误"
  else
    match opErrCategory err with
    | Some category => category
    | None => substringCategory (Error_text err)
    end.

Section Normalizer.

(** [FormatError] (utils.go) and [Pinger.formatError] (ping.go) are the
    same function up to the string returned for a timeout. *)
Variable timedOut : string.

Fixpoint formatErrorWith (err : error) : string :=
  match err with
  | UrlError _ _ inner =>                       (* case *url.Error *)
      if asserted (Timeout err) then timedOut
      else formatErrorWith inner
  | _ =>
      if is_net_Error err then                  (* case net.Error *)
        if asserted (Timeout err) then timedOut
        else
          match err with
          | OpError _ _ _ _ (SyscallError _ inner) => formatErrorWith inner
          | _ => afterTypeSwitch err
          end
      else                                      (* default *)
        if errors_Is IsDeadlineExceeded err then timedOut
        else afterTypeSwitch err
  end.

End Normalizer.

(** utils.go *)
Definition FormatError : error -> string := formatErrorWith "连接超时".

(** ping.go; the receiver is not used. *)
Definition formatError : error -> string := formatErrorWith "超时".

(** ** The protocol registry *)

Section Registry.

(** The non-nil function values of type [Factory]; a [Factory] is one
    of them or [nil]. *)
Variable F : Type.

Definition Protocol : Type := Z.
Definition Factory : Type := option F.

(** [pinger[protocol] = factory] on the package-level map. *)
Definition Register (protocol : Protocol) (factory : Factory)
    (pinger : gmap Z Factory) : gmap Z Factory :=
  <[protocol := factory]> pinger.

(** [return pinger[protocol]]: the zero value [nil] for a missing key. *)
Definition Load (protocol : Protocol) (pinger : gmap Z Factory) : Factory :=
  default None (pinger !! protocol).

(** The registry after a sequence of [Register] calls, oldest first. *)
Definition registered (calls : list (Protocol * Factory))
    (pinger : gmap Z Factory) : gmap Z Factory :=
  foldl (fun m c => Register c.1 c.2 m) pinger calls.

End Registry.

(** ** Stats *)

Record Stats : Type := mkStats {
  Connected : bool;
  Error : option error;                 (* nil is None *)
  Duration : Z;
  DNSDuration : Z;
  Address : string;
  Meta : gmap string string;            (* each Stringer by its String() *)
  Extra : option string                 (* nil, or the Stringer's String() *)
}.

Definition LF : string := String (Ascii.ascii_of_nat 10) EmptyString.
Definition TAB : string := String (Ascii.ascii_of_nat 9) EmptyString.

Definition string_le (a b : string) : Prop := String.leb a b = true.

#[local] Instance string_le_dec (a b : string) : Decision (string_le a b).
Proof. unfold string_le. apply _. Defined.

(** [builder.WriteString] over the sorted keys. *)
Fixpoint writeMeta (meta : gmap string string) (keys : list string) : string :=
  match keys with
  | [] => EmptyString
  | key :: rest =>
      key +:+ "=" +:+ default EmptyString (meta !! key)
        +:+ (match rest with [] => EmptyString | _ => " " end)
        +:+ writeMeta meta rest
  end.

Definition FormatMeta (s : Stats) : string :=
  let keys := merge_sort string_le (map fst (map_to_list (Meta s))) in
  writeMeta (Meta s) keys.

(** ** Pinger *)

(** The fields of [Pinger] that the package reads or writes. The probe
    ([ping Ping]) is an input of the loop below, [stopOnce] is the done
    flag of the [sync.Once], [stopC] tells whether the channel is closed,
    [out] holds the chunks written to the [io.Writer], [url] is
    [p.url.String()]. *)
Record Pinger : Type := mkPinger {
  stopOnce : bool;
  stopC : bool;
  out : list string;
  url : string;
  interval : Z;
  counter : Z;
  minDuration : Z;
  maxDuration : Z;
  totalDuration : Z;
  total : Z;
  failedTotal : Z
}.

Definition NewPinger (out : list string) (url : string) (interval counter : Z)
    : Pinger :=
  {| stopOnce := false; stopC := false; out := out; url := url;
     interval := interval; counter := counter;
     minDuration := 0; maxDuration := 0; totalDuration := 0;
     total := 0; failedTotal := 0 |}.

Definition set_stop (p : Pinger) : Pinger :=
  mkPinger true true (out p) (url p) (interval p) (counter p)
    (minDuration p) (maxDuration p) (totalDuration p) (total p) (failedTotal p).
Definition set_out (v : list string) (p : Pinger) : Pinger :=
  mkPinger (stopOnce p) (stopC p) v (url p) (interval p) (counter p)
    (minDuration p) (maxDuration p) (totalDuration p) (total p) (failedTotal p).
Definition set_minDuration (v : Z) (p : Pinger) : Pinger :=
  mkPinger (stopOnce p) (stopC p) (out p) (url p) (interval p) (counter p)
    v (maxDuration p) (totalDuration p) (total p) (failedTotal p).
Definition set_maxDuration (v : Z) (p : Pinger) : Pinger :=
  mkPinger (stopOnce p) (stopC p) (out p) (url p) (interval p) (counter p)
    (minDuration p) v (totalDuration p) (total p) (failedTotal p).
Definition set_totalDuration (v : Z) (p : Pinger) : Pinger :=
  mkPinger (stopOnce p) (stopC p) (out p) (url p) (interval p) (counter p)
    (minDuration p) (maxDuration p) v (total p) (failedTotal p).
Definition set_total (v : Z) (p : Pinger) : Pinger :=
  mkPinger (stopOnce p) (stopC p) (out p) (url p) (interval p) (counter p)
    (minDuration p) (maxDuration p) (totalDuration p) v (failedTotal p).
Definition set_failedTotal (v : Z) (p : Pinger) : Pinger :=
  mkPinger (stopOnce p) (stopC p) (out p) (url p) (interval p) (counter p)
    (minDuration p) (maxDuration p) (totalDuration p) (total p) v.

(** [fmt.Fprintf(p.out, ...)]: one more chunk on the writer. *)
Definition Fprint (chunk : string) (p : Pinger) : Pinger :=
  set_out (out p ++ [chunk]) p.

(** [p.stopOnce.Do(func() { close(p.stopC) })]. Closing a closed channel
    panics. *)
Definition Stop (p : Pinger) : option Pinger :=
  if stopOnce p then Some p
  else if stopC p then None
  else Some (set_stop p).

(** [%d] *)
Definition itoa (z : Z) : string := NilZero.string_of_int (Z.to_int z).

Section Rendering.

(** [time.Duration.String] and [strings.TrimSpace] of the Go library. *)
Variable DurationString : Z -> string.
Variable TrimSpace : string -> string.

(** The part of [logStats] below the early return. *)
Definition printStats (p : Pinger) (stats : Stats) : Pinger :=
  let status := if Connected stats then "Connected" else "Failed" in
  let p :=
    match Error stats with
    | Some err =>
        Fprint ("Ping " +:+ url p +:+ "(" +:+ Address stats +:+ ") "
                  +:+ status +:+ "(" +:+ formatError err +:+ ") - time="
                  +:+ padRight 10 (DurationString (Duration stats))
                  +:+ " dns=" +:+ padRight 9 (DurationString (DNSDuration stats))) p
    | None =>
        Fprint ("Ping " +:+ url p +:+ "(" +:+ Address stats +:+ ") "
                  +:+ status +:+ " - time="
                  +:+ padRight 10 (DurationString (Duration stats))
                  +:+ " dns=" +:+ padRight 9 (DurationString (DNSDuration stats))) p
    end in
  let p :=
    if decide (Meta stats = ∅) then p
    else Fprint (" " +:+ FormatMeta stats) p in
  let p := Fprint LF p in
  match Extra stats with
  | Some extra => Fprint (" " +:+ TrimSpace extra +:+ LF) p
  | None => p
  end.

Definition logStats (p : Pinger) (stats : Stats) : Pinger :=
  let p :=
    if Duration stats <? minDuration p
    then set_minDuration (Duration stats) p else p in
  let p :=
    if Duration stats >? maxDuration p
    then set_maxDuration (Duration stats) p else p in
  let p := set_totalDuration (wrap64 (totalDuration p + Duration stats)) p in
  match Error stats with
  | Some err =>
      let p := set_failedTotal (wrap64 (failedTotal p + 1)) p in
      if errors_Is IsCanceled err then p   (* ignore cancel *)
      else printStats p stats
  | None => printStats p stats
  end.

(** The template [tpl] of [Summarize], filled in. *)
Definition summaryText (p : Pinger) (average : Z) : string :=
  LF +:+ "Ping statistics " +:+ url p +:+ LF
    +:+ TAB +:+ itoa (total p) +:+ " probes sent." +:+ LF
    +:+ TAB +:+ itoa (wrap64 (total p - failedTotal p))
    +:+ " successful, " +:+ itoa (failedTotal p) +:+ " failed." +:+ LF
    +:+ "Approximate trip times:" +:+ LF
    +:+ TAB +:+ "Minimum = " +:+ DurationString (minDuration p)
    +:+ ", Maximum = " +:+ DurationString (maxDuration p)
    +:+ ", Average = " +:+ DurationString average.

(** [Summarize]: the arguments are evaluated, the division among them,
    then the text is written. *)
Definition Summarize (p : Pinger) : option Pinger :=
  average ← quo64 (totalDuration p) (total p);
  Some (Fprint (summaryText p average) p).

(** *** The loop of [Ping] *)

(** What one [select] of the loop can observe, and the one thing another
    goroutine can do to the Pinger meanwhile. *)
Inductive event : Type :=
  | TimerC      (* case <-timer.C *)
  | DoneC       (* case <-p.Done(), enabled once stopC is closed *)
  | StopCall.   (* p.Stop() called from outside the loop *)

Record loop : Type := mkLoop {
  pinger : Pinger;
  calls : nat;        (* invocations of p.ping.Ping so far *)
  stop : bool
}.

(** The probe: the Stats returned by its k-th invocation. The timer
    itself ([time.NewTimer(1)], [timer.Reset(interval)]) decides when a
    [TimerC] event happens and is not part of the model. *)
Variable probe : nat -> Stats.

(** [p.logStats(stats)] followed by [p.total++]: what one probe outcome
    does to the accumulator. *)
Definition fold (p : Pinger) (stats : Stats) : Pinger :=
  let p := logStats p stats in
  set_total (wrap64 (total p + 1)) p.

(** The body of [case <-timer.C]. *)
Definition tick (st : loop) : loop :=
  let stats := probe (calls st) in
  let p := fold (pinger st) stats in
  mkLoop p (S (calls st))
    ((counter p >? 0) && (total p >? wrap64 (counter p - 1))).

(** One event while the loop is running. A [DoneC] while the channel is
    open is not enabled: the loop stays where it is. *)
Definition step (ev : event) (st : loop) : option loop :=
  match ev with
  | TimerC => Some (tick st)
  | DoneC =>
      if stopC (pinger st)
      then Some (mkLoop (pinger st) (calls st) true)
      else Some st
  | StopCall =>
      p ← Stop (pinger st);
      Some (mkLoop p (calls st) (stop st))
  end.

(** [for !stop { select { ... } }] along a schedule of events. *)
Fixpoint run (schedule : list event) (st : loop) : option loop :=
  if stop st then Some st
  else
    match schedule with
    | [] => Some st
    | ev :: rest => st' ← step ev st; run rest st'
    end.

(** [Ping]: the loop from [p.minDuration = math.MaxInt64], then the
    deferred [p.Stop()] once the loop has been left. The result has
    [stop = false] when the schedule ended with the loop still running. *)
Definition Ping (schedule : list event) (p : Pinger) : option loop :=
  st ← run schedule (mkLoop (set_minDuration MaxInt64 p) 0 false);
  if stop st then
    p ← Stop (pinger st);
    Some (mkLoop p (calls st) true)
  else Some st.

End Rendering.

(** ** Result *)

Record Result : Type := mkResult {
  Counter : Z;
  SuccessCounter : Z;
  MinDuration : Z;
  MaxDuration : Z;
  TotalDuration : Z
}.

Definition Avg (result : Result) : option Z :=
  if SuccessCounter result =? 0 then Some 0
  else quo64 (TotalDuration result) (SuccessCounter result).

Definition Failed (result : Result) : Z :=
  wrap64 (Counter result - SuccessCounter result).

(** ** Definitions used to state the properties *)

(** The phrases of [substringCategory] with their categories, in the
    order of the source. *)
Definition phraseTable : list (string * string) :=
  [ ("forcibly closed", "远程主机强行关闭了现有连接");
    ("because it doesn't contain any IP SANs", "无法验证证书");
    ("no such host", "无效域名");
    ("getaddrinfow", "域名解析错误");
    ("closed network connection", "使用已关闭的网络连接");
    ("connection refused", "连接被拒绝");
    ("server gave HTTP response to HTTPS client", "服务器需要https访问");
    ("x509: certificate is not valid", "无效的网站证书");
    ("x509: certificate is valid", "网站证书不匹配");
    ("actively refused it", "无法建立连接");
    ("was forcibly closed by the remote host", "远程主机强制关闭了现有连接") ].

(** First row of the table whose phrase occurs in the text; the text
    itself when there is none. *)
Definition firstMatch (table : list (string * string)) (text : string) : string :=
  match find (fun row => Contains text row.1) table with
  | Some row => row.2
  | None => text
  end.

(** What the typed checks decide for one layer of an error: a category,
    a cause to continue with, or nothing (the substring table is next). *)
Inductive outcome : Type :=
  | Category (category : string)
  | Unwrapped (inner : error)
  | Leaf.

Definition layerOutcome (timedOut : string) (e : error) : outcome :=
  match e with
  | UrlError _ _ inner =>
      if asserted (Timeout e) then Category timedOut else Unwrapped inner
  | _ =>
      if is_net_Error e then
        if asserted (Timeout e) then Category timedOut
        else
          match e with
          | OpError _ _ _ _ (SyscallError _ inner) => Unwrapped inner
          | _ =>
              if asserted (Temporary e) then Category "网络临时错误"
              else
                match e with
                | OpError _ _ _ _ (DNSError _ _ _ _ _) => Category "域名解析错误"
                | _ => Leaf
                end
          end
      else if errors_Is IsDeadlineExceeded e then Category timedOut
      else if is_EOF e then Category "网络主动断开"
      else Leaf
  end.

(** The wrapping error types of the Go library that carry one cause. *)
Inductive wrapper : Type :=
  | WrapW (msg : string)
  | SyscallW (Syscall : string)
  | OpW (Op Net : string) (Source Addr : option string)
  | UrlW (Op URL : string).

Definition wrap (w : wrapper) (cause : error) : error :=
  match w with
  | WrapW msg => WrapError msg cause
  | SyscallW call => SyscallError call cause
  | OpW op net source addr => OpError op net source addr cause
  | UrlW op url => UrlError op url cause
  end.

(** A [*net.OpError] directly over a [%w] wrapper: the wrapper has no
    [Timeout] method, so the [OpError] reports no timeout. *)
Definition hidesDeadline (outer inner : wrapper) : bool :=
  match outer, inner with
  | OpW _ _ _ _, WrapW _ => true
  | _, _ => false
  end.

(** A deadline error two layers down: under a [*net.OpError] over a [%w]
    wrapper whose text happens to contain a phrase of the table. *)
Definition hiddenDeadline : error :=
  OpError "dial" "tcp" None (Some "10.0.0.1:443")
    (WrapError "proxy: connection refused: context deadline exceeded"
       DeadlineExceeded).

(** A [*url.Error] around an error that no check recognises. *)
Definition wrappedUnknown : error :=
  UrlError "Get" "http://example.com/" (ErrorString "boom").

(** [Stop] requested [n] times in a row. *)
Definition StopTimes (n : nat) (p : Pinger) : option Pinger :=
  Nat.iter n (fun r => r ≫= Stop) (Some p).

(** The accumulator of a run: what [Ping] starts from. *)
Definition started (p : Pinger) : Pinger := set_minDuration MaxInt64 p.

Definition durations (records : list Stats) : list Z := map Duration records.

Definition minimum (d : Z) (ds : list Z) : Z := foldr Z.min d ds.
Definition maximum (d : Z) (ds : list Z) : Z := foldr Z.max d ds.
Definition sum (ds : list Z) : Z := foldr Z.add 0 ds.

Definition accumulatorInv (p : Pinger) : Prop :=
  0 <= failedTotal p <= total p /\
  (0 < total p -> minDuration p <= maxDuration p).

(** The failure count goes up by one exactly for an error that is not nil
    and not a cancellation. *)
Definition failureCountedIffUncancelled
    (DurationString : Z -> string) (TrimSpace : string -> string)
    (p : Pinger) (stats : Stats) : Prop :=
  failedTotal (logStats DurationString TrimSpace p stats)
    = wrap64 (failedTotal p + 1)
  <-> exists err, Error stats = Some err /\ errors_Is IsCanceled err = false.

(** A probe cancelled after 5ns, and stand-ins for the two library
    functions. *)
Definition cancelledStats : Stats :=
  mkStats false (Some Canceled) 5 0 "93.184.216.34:80" ∅ None.

Definition sampleDurationString (d : Z) : string := itoa d +:+ "ns".
Definition sampleTrimSpace (s : string) : string := s.

(** A chunk that starts a per-probe line. *)
Definition isProbeLine (chunk : string) : bool := String.prefix "Ping " chunk.

(** The chunks that follow the first one of a per-probe line: the
    metadata when there is some, the line feed, the extra block when
    there is one. *)
Definition lineTail (TrimSpace : string -> string) (stats : Stats) : list string :=
  (if decide (Meta stats = ∅) then [] else [" " +:+ FormatMeta stats])
    ++ [LF]
    ++ match Extra stats with
       | Some extra => [" " +:+ TrimSpace extra +:+ LF]
       | None => []
       end.

Definition isTimerC (ev : event) : bool :=
  match ev with TimerC => true | _ => false end.

(** How often the timer fires in a schedule. *)
Definition timers (schedule : list event) : nat :=
  length (filter (fun ev => isTimerC ev = true) schedule).

Definition isStopCall (ev : event) : bool :=
  match ev with StopCall => true | _ => false end.

(** ** Definitions for further properties of the Pinger *)

(** The channel is closed exactly when the [sync.Once] has run. *)
Definition onceGuards (p : Pinger) : Prop := stopC p = stopOnce p.

(** The record's error is a cancellation: [logStats] returns before it
    prints. *)
Definition suppressed (stats : Stats) : bool :=
  match Error stats with
  | Some err => errors_Is IsCanceled err
  | None => false
  end.

Definition hasError (stats : Stats) : bool :=
  match Error stats with Some _ => true | None => false end.

(** Chunks that start a per-probe line. *)
Definition probeLines (chunks : list string) : nat :=
  length (filter (fun chunk => isProbeLine chunk = true) chunks).

(** Among the probe invocations [first .. first + count - 1], those whose
    record is not a cancellation. *)
Definition printedBetween (probe : nat -> Stats) (first count : nat) : nat :=
  length (filter (fun i => suppressed (probe i) = false) (seq first count)).

(** A schedule in which [Stop] is called while the second probe is due. *)
Definition interruptedSchedule : list event :=
  [TimerC; StopCall; TimerC; DoneC; TimerC].

(** Three records: a success, a cancellation, a failure. *)
Definition sampleRecords : list Stats :=
  [mkStats true None 7 1 "93.184.216.34:80" ∅ None; cancelledStats;
   mkStats false (Some EOF) 9 1 "93.184.216.34:80" ∅ None].

(** A probe that answers with [sampleRecords], then keeps succeeding. *)
Definition sampleProbe (k : nat) : Stats :=
  nth k sampleRecords (mkStats true None 7 1 "93.184.216.34:80" ∅ None).

(** ** Definitions for further properties of the normalizer *)

(** How many layers an error has below it. *)
Fixpoint depth (e : error) : nat :=
  match e with
  | WrapError _ inner | SyscallError _ inner | OpError _ _ _ _ inner
  | UrlError _ _ inner => S (depth inner)
  | Foreign _ _ _ _ _ (Some inner) => S (depth inner)
  | _ => 0
  end.

(** The categories the typed checks can return besides the timeout text. *)
Definition typedCategories : list string :=
  ["网络主动断开"; "网络临时错误"; "域名解析错误"].

(** The layers the normalizer looks at, from the error passed in down to
    the one it stops at. *)
Inductive unwrapsTo (timedOut : string) : error -> error -> Prop :=
  | unwrapsTo_here (e : error) : unwrapsTo timedOut e e
  | unwrapsTo_cause (e cause layer : error) :
      layerOutcome timedOut e = Unwrapped cause ->
      unwrapsTo timedOut cause layer ->
      unwrapsTo timedOut e layer.

(** ** Protocol names (ping.go) *)

Definition TCP : Protocol := 0.
Definition HTTP : Protocol := 1.
Definition HTTPS : Protocol := 2.

(** [Protocol.String]. *)
Definition Protocol_String (protocol : Protocol) : string :=
  if protocol =? TCP then "tcp"
  else if protocol =? HTTP then "http"
  else if protocol =? HTTPS then "https"
  else "unknown".

Definition isUpperASCII (c : ascii) : bool :=
  let n := Ascii.nat_of_ascii c in (65 <=? n)%nat && (n <=? 90)%nat.

Fixpoint isASCII (s : string) : bool :=
  match s with
  | EmptyString => true
  | String c rest => (Ascii.nat_of_ascii c <? 128)%nat && isASCII rest
  end.

Fixpoint lowerASCII (s : string) : string :=
  match s with
  | EmptyString => EmptyString
  | String c rest =>
      String (if isUpperASCII c
              then Ascii.ascii_of_nat (Ascii.nat_of_ascii c + 32)
              else c)
             (lowerASCII rest)
  end.

Section Names.

(** [strings.Map(unicode.ToLower, s)], the path of [strings.ToLower] for
    a string with a byte outside ASCII. *)
Variable mapToLower : string -> string.

(** [strings.ToLower]: an ASCII string is lowered byte by byte. *)
Definition ToLower (s : string) : string :=
  if isASCII s then lowerASCII s else mapToLower s.

(** [NewProtocol]; the error is the one [fmt.Errorf] builds, the protocol
    returned with it is 0. *)
Definition NewProtocol (protocol : string) : Protocol * option error :=
  let lower := ToLower protocol in
  if String.eqb lower (Protocol_String TCP) then (TCP, None)
  else if String.eqb lower (Protocol_String HTTP) then (HTTP, None)
  else if String.eqb lower (Protocol_String HTTPS) then (HTTPS, None)
  else (0, Some (ErrorString ("protocol " +:+ protocol +:+ " not support"))).

End Names.

(** ** utils.go *)

(** The byte is one of the cutset's. *)
Fixpoint inCutset (cutset : string) (c : ascii) : bool :=
  match cutset with
  | EmptyString => false
  | String x rest => Ascii.eqb x c || inCutset rest c
  end.

Fixpoint TrimLeft (cutset s : string) : string :=
  match s with
  | EmptyString => EmptyString
  | String c rest => if inCutset cutset c then TrimLeft cutset rest else s
  end.

Fixpoint TrimRight (cutset s : string) : string :=
  match s with
  | EmptyString => EmptyString
  | String c rest =>
      match TrimRight cutset rest with
      | EmptyString =>
          if inCutset cutset c then EmptyString else String c EmptyString
      | kept => String c kept
      end
  end.

(** [strings.Trim(s, cutset)] for a cutset of ASCII bytes: the leading and
    the trailing bytes of the cutset are removed. *)
Definition Trim (s cutset : string) : string :=
  TrimRight cutset (TrimLeft cutset s).

Section Utils.

(** [net.ParseIP] followed by the test [To4() == nil]: [None] for an
    invalid address, else whether the address has a 4-byte form. *)
Variable ParseIP : string -> option bool.

Definition FormatIP (IP : string) : string * option error :=
  let host := Trim IP "[ ]" in
  match ParseIP host with
  | Some is4 =>
      ((if is4 then host else "[" +:+ host +:+ "]"), None)
  | None => (EmptyString, Some (ErrorString "error IP format"))
  end.

(** [url.Parse], with whatever it returns. *)
Variable U : Type.
Variable url_Parse : string -> U.

Definition ParseAddress (addr : string) : U :=
  if Contains addr "://" then url_Parse addr
  else url_Parse ("tcp://" +:+ addr).

End Utils.

(** The value of a decimal digit. *)
Definition digitValue (c : ascii) : option Z :=
  let n := Ascii.nat_of_ascii c in
  if (48 <=? n)%nat && (n <=? 57)%nat then Some (Z.of_nat n - 48) else None.

Fixpoint parseDigits (s : string) (acc : Z) : option Z :=
  match s with
  | EmptyString => Some acc
  | String c rest =>
      match digitValue c with
      | Some d => parseDigits rest (acc * 10 + d)
      | None => None
      end
  end.

(** [strconv.ParseInt(s, 10, 64)] up to the kind of error: an optional
    sign and at least one decimal digit, with a value that fits. *)
Definition ParseInt (s : string) : option Z :=
  match s with
  | EmptyString => None
  | String c rest =>
      let neg := Ascii.eqb c "-" in
      let digits := if Ascii.eqb c "+" || neg then rest else s in
      match digits with
      | EmptyString => None
      | _ =>
          un ← parseDigits digits 0;
          if negb neg && (2 ^ 63 <=? un) then None
          else if neg && (2 ^ 63 <? un) then None
          else Some (if neg then - un else un)
      end
  end.

(** [time.Millisecond] *)
Definition Millisecond : Z := 1000000.

Section Durations.

(** [time.ParseDuration] *)
Variable time_ParseDuration : string -> Z * option error.

Definition ParseDuration (t : string) : Z * option error :=
  match ParseInt t with
  | Some timeout => (wrap64 (timeout * Millisecond), None)
  | None => time_ParseDuration t
  end.

End Durations.

(** A stand-in for [net.ParseIP] that knows two addresses. *)
Definition sampleParseIP (host : string) : option bool :=
  if String.eqb host "::1" then Some false
  else if String.eqb host "127.0.0.1" then Some true
  else None.

(** The string is empty or starts with a byte outside the cutset. *)
Definition startsClean (cutset s : string) : Prop :=
  match s with
  | EmptyString => True
  | String c _ => inCutset cutset c = false
  end.

(** * Properties *)

(** ** Machine integers *)

Lemma wrap64_range (z : Z) : int64_range (wrap64 z).
Proof.
  unfold int64_range, wrap64, MinInt64, MaxInt64.
  pose proof (Z.mod_pos_bound (z + 2 ^ 63) (2 ^ 64) ltac:(lia)). lia.
Qed.

Lemma wrap64_id (z : Z) : int64_range z -> wrap64 z = z.
Proof.
  unfold int64_range, wrap64, MinInt64, MaxInt64. intros H.
  rewrite Z.mod_small; lia.
Qed.

Lemma wrap64_succ_neq (z : Z) : wrap64 (z + 1) <> z.
Proof.
  intros H.
  assert (Hr : int64_range z) by (rewrite <- H; apply wrap64_range).
  unfold int64_range, MinInt64, MaxInt64 in Hr.
  destruct (decide (z = 9223372036854775807)) as [-> | Hne].
  - vm_compute in H. discriminate.
  - rewrite wrap64_id in H; [lia |].
    unfold int64_range, MinInt64, MaxInt64. lia.
Qed.

Lemma wrap64_add_wrap (a b : Z) : wrap64 (wrap64 a + b) = wrap64 (a + b).
Proof.
  unfold wrap64. f_equal.
  replace ((a + 2 ^ 63) mod 2 ^ 64 - 2 ^ 63 + b + 2 ^ 63)
    with ((a + 2 ^ 63) mod 2 ^ 64 + b) by lia.
  rewrite Zplus_mod_idemp_l. f_equal. lia.
Qed.

(** The quotient of two [int64] values fits an [int64], except for
    [MinInt64 / -1]. *)
Lemma quot_int64 (a b : Z) :
  int64_range a -> int64_range b -> b <> 0 ->
  ~ (a = MinInt64 /\ b = -1) ->
  int64_range (Z.quot a b).
Proof.
  unfold int64_range, MinInt64, MaxInt64. intros Ha Hb Hb0 Hcorner.
  assert (Habs : Z.abs (Z.quot a b) <= Z.abs a).
  { rewrite <- Z.quot_abs by assumption.
    rewrite Z.quot_div_nonneg by lia.
    apply Z.div_le_upper_bound; [lia | nia]. }
  destruct (Z.eq_dec b (-1)) as [-> | Hb1].
  - change (-1) with (- (1)). rewrite Z.quot_opp_r, Z.quot_1_r by lia. lia.
  - destruct (Z.eq_dec a (-9223372036854775808)) as [-> | Ha'].
    + destruct (Z.eq_dec b 1) as [-> | Hb1']; [rewrite Z.quot_1_r; lia |].
      assert (Z.abs (Z.quot (-9223372036854775808) b) <= 4611686018427387904).
      { rewrite <- Z.quot_abs by assumption.
        rewrite Z.quot_div_nonneg by lia.
        apply Z.div_le_upper_bound; [lia |]. simpl Z.abs at 1. lia. }
      lia.
    + lia.
Qed.

(** So Go's division is the truncated quotient there. *)
Lemma quo64_exact (a b : Z) :
  int64_range a -> int64_range b -> b <> 0 ->
  ~ (a = MinInt64 /\ b = -1) ->
  quo64 a b = Some (Z.quot a b).
Proof.
  intros Ha Hb Hb0 Hcorner. unfold quo64.
  destruct (b =? 0) eqn:E; [lia |].
  by rewrite wrap64_id by by apply quot_int64.
Qed.

(** ** Strings *)

Lemma prefix_append (s t : string) : String.prefix s (s +:+ t) = true.
Proof.
  induction s as [| a s IH]; simpl.
  - by destruct t.
  - destruct (Ascii.ascii_dec a a); [exact IH | done].
Qed.

(** ** The protocol registry *)

Section RegistryFacts.

Context {F : Type}.
Implicit Types (pinger : gmap Z (Factory F)) (protocol : Protocol).

Lemma Load_Register_eq protocol factory pinger :
  Load F protocol (Register F protocol factory pinger) = factory.
Proof. unfold Load, Register. by rewrite lookup_insert_eq. Qed.

Lemma Load_Register_ne protocol other factory pinger :
  other <> protocol ->
  Load F protocol (Register F other factory pinger) = Load F protocol pinger.
Proof. intros Hne. unfold Load, Register. by rewrite lookup_insert_ne. Qed.

Lemma Load_registered_other protocol calls pinger :
  Forall (fun c => c.1 <> protocol) calls ->
  Load F protocol (registered F calls pinger) = Load F protocol pinger.
Proof.
  intros Hcalls. revert pinger.
  induction Hcalls as [| c calls Hc _ IH]; intros pinger; [done |].
  simpl. rewrite IH. by apply Load_Register_ne.
Qed.

End RegistryFacts.

(** C8. Registering [f1] and then [f2] under one protocol makes [Load]
    return [f2]; the second call overwrites without an error (the registry
    is the one a single [Register] of [f2] gives); a protocol that none of
    the [Register] calls made so far names loads as [nil]. *)
Theorem C8_Register_last_write_wins
    (F : Type) (p q : Protocol) (f1 f2 : Factory F)
    (pinger : gmap Z (Factory F)) (calls : list (Protocol * Factory F))
    (Hq : Forall (fun c => c.1 <> q) calls) :
  Load F p (Register F p f2 (Register F p f1 pinger)) = f2 /\
  Register F p f2 (Register F p f1 pinger) = Register F p f2 pinger /\
  Load F q (registered F calls ∅) = None.
Proof.
  split; [apply Load_Register_eq |].
  split; [unfold Register; apply insert_insert_eq |].
  rewrite Load_registered_other by done.
  unfold Load. by rewrite lookup_empty.
Qed.

Lemma C8_Register_last_write_wins_witness :
  Load nat 1 (Register nat 1 (Some 8%nat) (Register nat 1 (Some 7%nat) ∅)) = Some 8%nat /\
  Register nat 1 (Some 8%nat) (Register nat 1 (Some 7%nat) ∅)
    = Register nat 1 (Some 8%nat) ∅ /\
  Load nat 2 (registered nat [(0, Some 5%nat); (1, Some 7%nat)] ∅) = None.
Proof.
  apply (C8_Register_last_write_wins nat 1 2 (Some 7%nat) (Some 8%nat) ∅
           [(0, Some 5%nat); (1, Some 7%nat)]).
  repeat constructor; simpl; lia.
Defined.

(** ** Stop *)

Lemma Stop_Stop (p p' : Pinger) : Stop p = Some p' -> Stop p' = Some p'.
Proof.
  unfold Stop. intros H.
  destruct (stopOnce p) eqn:Honce.
  - injection H as <-. by rewrite Honce.
  - destruct (stopC p); [discriminate |]. by injection H as <-.
Qed.

(** C7. [Stop] is idempotent: from every Pinger state, two or more
    requests in a row leave exactly what one request leaves. *)
Theorem C7_Stop_idempotent (p : Pinger) (n : nat) :
  StopTimes (S (S n)) p = Stop p /\
  (Stop p ≫= Stop) = Stop p.
Proof.
  assert (Htwice : (Stop p ≫= Stop) = Stop p).
  { destruct (Stop p) as [p' |] eqn:H; simpl; [by eapply Stop_Stop | done]. }
  split; [| done].
  induction n as [| n IH].
  - exact Htwice.
  - change (StopTimes (S (S (S n))) p) with (StopTimes (S (S n)) p ≫= Stop).
    rewrite IH. exact Htwice.
Qed.

(** ** Averages *)

Section Summary.

Variable DurationString : Z -> string.
Variable TrimSpace : string -> string.
Variable probe : nat -> Stats.

Lemma Summarize_zero (p : Pinger) :
  total p = 0 -> Summarize DurationString p = None.
Proof. intros H. unfold Summarize, quo64. by rewrite H. Qed.

Lemma Summarize_nonzero (p : Pinger) :
  total p <> 0 ->
  Summarize DurationString p =
    Some (Fprint (summaryText DurationString p
                    (wrap64 (Z.quot (totalDuration p) (total p)))) p).
Proof.
  intros H. unfold Summarize, quo64.
  destruct (total p =? 0) eqn:E; [lia | done].
Qed.

End Summary.

(** C9. [Result.Avg] is 0 when [SuccessCounter] is 0 and otherwise
    [TotalDuration / SuccessCounter] (Go's int64 quotient); it never
    panics. [Pinger.Summarize] divides [totalDuration] by [total], the
    count of all attempts, whatever [failedTotal] is. *)
Theorem C9_Avg_over_successes
    (DurationString : Z -> string) (result : Result) (p : Pinger) :
  Avg result =
    Some (if SuccessCounter result =? 0 then 0
          else wrap64 (Z.quot (TotalDuration result) (SuccessCounter result))) /\
  Summarize DurationString p =
    (if total p =? 0 then None
     else Some (Fprint (summaryText DurationString p
                          (wrap64 (Z.quot (totalDuration p) (total p)))) p)).
Proof.
  split.
  - unfold Avg, quo64. by destruct (SuccessCounter result =? 0).
  - destruct (total p =? 0) eqn:E.
    + apply Summarize_zero. lia.
    + apply Summarize_nonzero. lia.
Qed.

(** ** The accumulator *)

Section Accumulator.

Variable DurationString : Z -> string.
Variable TrimSpace : string -> string.

Abbreviation logStats' := (logStats DurationString TrimSpace).
Abbreviation fold' := (fold DurationString TrimSpace).

(** Projections of the setters, without unfolding anything else. *)
Ltac proj_simpl :=
  cbn [stopOnce stopC out url interval counter minDuration maxDuration
       totalDuration total failedTotal set_stop set_out set_minDuration
       set_maxDuration set_totalDuration set_total set_failedTotal Fprint] in *.

Ltac unfold_log :=
  unfold logStats, printStats, fold; cbv zeta;
  repeat (case_match; proj_simpl); try done; try congruence.

Lemma logStats_minDuration (p : Pinger) (stats : Stats) :
  minDuration (logStats' p stats) = Z.min (Duration stats) (minDuration p).
Proof.
  assert (H : minDuration (logStats' p stats) =
              if Duration stats <? minDuration p then Duration stats
              else minDuration p) by unfold_log.
  rewrite H. destruct (Z.ltb_spec (Duration stats) (minDuration p)); lia.
Qed.

Lemma logStats_maxDuration (p : Pinger) (stats : Stats) :
  maxDuration (logStats' p stats) = Z.max (Duration stats) (maxDuration p).
Proof.
  assert (H : maxDuration (logStats' p stats) =
              if Duration stats >? maxDuration p then Duration stats
              else maxDuration p) by unfold_log.
  rewrite H, Z.gtb_ltb.
  destruct (Z.ltb_spec (maxDuration p) (Duration stats)); lia.
Qed.

Lemma logStats_totalDuration (p : Pinger) (stats : Stats) :
  totalDuration (logStats' p stats) = wrap64 (totalDuration p + Duration stats).
Proof. unfold_log. Qed.

Lemma logStats_failedTotal (p : Pinger) (stats : Stats) :
  failedTotal (logStats' p stats) =
    match Error stats with
    | Some _ => wrap64 (failedTotal p + 1)
    | None => failedTotal p
    end.
Proof. unfold_log. Qed.

Lemma logStats_total (p : Pinger) (stats : Stats) :
  total (logStats' p stats) = total p.
Proof. unfold_log. Qed.

Lemma logStats_counter (p : Pinger) (stats : Stats) :
  counter (logStats' p stats) = counter p.
Proof. unfold_log. Qed.

Lemma logStats_stopC (p : Pinger) (stats : Stats) :
  stopC (logStats' p stats) = stopC p.
Proof. unfold_log. Qed.

Lemma logStats_stopOnce (p : Pinger) (stats : Stats) :
  stopOnce (logStats' p stats) = stopOnce p.
Proof. unfold_log. Qed.

Lemma fold_total (p : Pinger) (stats : Stats) :
  total (fold' p stats) = wrap64 (total p + 1).
Proof. unfold fold. proj_simpl. by rewrite logStats_total. Qed.

Lemma fold_logStats (p : Pinger) (stats : Stats) :
  minDuration (fold' p stats) = minDuration (logStats' p stats) /\
  maxDuration (fold' p stats) = maxDuration (logStats' p stats) /\
  totalDuration (fold' p stats) = totalDuration (logStats' p stats) /\
  failedTotal (fold' p stats) = failedTotal (logStats' p stats) /\
  counter (fold' p stats) = counter p /\
  stopC (fold' p stats) = stopC p /\
  stopOnce (fold' p stats) = stopOnce p /\
  out (fold' p stats) = out (logStats' p stats).
Proof.
  unfold fold. proj_simpl.
  by rewrite logStats_counter, logStats_stopC, logStats_stopOnce.
Qed.

Lemma logStats_out_canceled (p : Pinger) (stats : Stats) (err : error) :
  Error stats = Some err -> errors_Is IsCanceled err = true ->
  out (logStats' p stats) = out p.
Proof.
  intros Herr Hc. unfold logStats. cbv zeta. rewrite Herr, Hc.
  repeat (case_match; proj_simpl); done.
Qed.

Lemma logStats_out_failed (p : Pinger) (stats : Stats) (err : error) :
  Error stats = Some err -> errors_Is IsCanceled err = false ->
  out (logStats' p stats) =
    (out p ++
     ("Ping " +:+ url p +:+ "(" +:+ Address stats +:+ ") "
        +:+ (if Connected stats then "Connected" else "Failed")
        +:+ "(" +:+ formatError err +:+ ") - time="
        +:+ padRight 10 (DurationString (Duration stats))
        +:+ " dns=" +:+ padRight 9 (DurationString (DNSDuration stats)))
     :: lineTail TrimSpace stats)%list.
Proof.
  intros Herr Hc. unfold logStats, printStats, lineTail. cbv zeta.
  rewrite Herr, Hc.
  repeat (case_match; proj_simpl); rewrite <- ?app_assoc; try done.
Qed.

Lemma lineTail_no_probe_line (stats : Stats) :
  Forall (fun chunk => isProbeLine chunk = false) (lineTail TrimSpace stats).
Proof.
  unfold lineTail.
  repeat apply Forall_app_2; repeat case_match; repeat constructor.
Qed.

(** One fold step keeps the invariant of the accumulator. *)
Lemma fold_accumulatorInv (p : Pinger) (stats : Stats) :
  accumulatorInv p -> total p < MaxInt64 -> accumulatorInv (fold' p stats).
Proof.
  unfold accumulatorInv. intros [[Hf0 Hft] _] Hmax.
  destruct (fold_logStats p stats) as (Hmin & Hmx & _ & Hfail & _).
  rewrite fold_total, Hmin, Hmx, Hfail, logStats_minDuration,
    logStats_maxDuration, logStats_failedTotal.
  unfold MaxInt64 in Hmax.
  rewrite (wrap64_id (total p + 1))
    by (unfold int64_range, MinInt64, MaxInt64; lia).
  destruct (Error stats).
  - rewrite wrap64_id by (unfold int64_range, MinInt64, MaxInt64; lia). lia.
  - lia.
Qed.

Lemma foldl_fold_inv (p : Pinger) (records : list Stats) :
  accumulatorInv p -> total p = 0 -> Z.of_nat (length records) <= MaxInt64 ->
  total (foldl fold' p records) = Z.of_nat (length records) /\
  accumulatorInv (foldl fold' p records).
Proof.
  intros Hinv Ht. induction records as [| r records IH] using rev_ind.
  - intros _. simpl. split; [lia | done].
  - rewrite length_app, foldl_app. cbn [foldl length]. intros Hlen.
    destruct IH as [IHt IHinv]; [lia |].
    split.
    + rewrite fold_total, IHt.
      rewrite wrap64_id; [lia |].
      unfold int64_range, MinInt64, MaxInt64 in *. lia.
    + apply fold_accumulatorInv; [done | lia].
Qed.

Lemma foldl_fold_minDuration (p : Pinger) (records : list Stats) :
  minDuration (foldl fold' p records)
    = foldr Z.min (minDuration p) (durations records).
Proof.
  induction records as [| r records IH] using rev_ind; [done |].
  rewrite foldl_app. cbn [foldl].
  destruct (fold_logStats (foldl fold' p records) r) as (-> & _).
  rewrite logStats_minDuration, IH. unfold durations.
  rewrite map_app, foldr_app. cbn [map foldr].
  generalize (minDuration p). generalize (Duration r).
  induction (map Duration records) as [| d ds IHds]; intros; simpl; [lia |].
  rewrite <- IHds. lia.
Qed.

Lemma foldl_fold_maxDuration (p : Pinger) (records : list Stats) :
  maxDuration (foldl fold' p records)
    = foldr Z.max (maxDuration p) (durations records).
Proof.
  induction records as [| r records IH] using rev_ind; [done |].
  rewrite foldl_app. cbn [foldl].
  destruct (fold_logStats (foldl fold' p records) r) as (_ & -> & _).
  rewrite logStats_maxDuration, IH. unfold durations.
  rewrite map_app, foldr_app. cbn [map foldr].
  generalize (maxDuration p). generalize (Duration r).
  induction (map Duration records) as [| d ds IHds]; intros; simpl; [lia |].
  rewrite <- IHds. lia.
Qed.

Lemma foldl_fold_totalDuration (p : Pinger) (records : list Stats) :
  int64_range (totalDuration p) ->
  totalDuration (foldl fold' p records)
    = wrap64 (totalDuration p + sum (durations records)).
Proof.
  intros Hp. induction records as [| r records IH] using rev_ind.
  - simpl. rewrite Z.add_0_r. by rewrite wrap64_id.
  - rewrite foldl_app. cbn [foldl].
    destruct (fold_logStats (foldl fold' p records) r) as (_ & _ & -> & _).
    rewrite logStats_totalDuration, IH. unfold durations, sum.
    rewrite map_app, foldr_app. cbn [map foldr].
    assert (Hsum : forall (ds : list Z) (a : Z),
               foldr Z.add a ds = a + foldr Z.add 0 ds).
    { induction ds as [| d ds IHds]; intros a; simpl; [lia |].
      rewrite IHds. lia. }
    rewrite (Hsum _ (Duration r + 0)), wrap64_add_wrap.
    f_equal. lia.
Qed.

End Accumulator.

Lemma foldr_min_base (M d : Z) (ds : list Z) :
  Z.min d (foldr Z.min M ds) = Z.min M (minimum d ds).
Proof.
  unfold minimum. revert d.
  induction ds as [| x xs IH]; intros d; simpl; [lia |].
  specialize (IH d). lia.
Qed.

Lemma foldr_max_base (M d : Z) (ds : list Z) :
  Z.max d (foldr Z.max M ds) = Z.max M (maximum d ds).
Proof.
  unfold maximum. revert d.
  induction ds as [| x xs IH]; intros d; simpl; [lia |].
  specialize (IH d). lia.
Qed.

Lemma minimum_le (M d : Z) (ds : list Z) :
  d <= M -> minimum d ds <= M.
Proof.
  unfold minimum. intros Hd.
  induction ds as [| x xs IH]; simpl; lia.
Qed.

(** C1, as the code has it. [logStats] increments the failure count
    exactly when the record's error is not nil, a cancellation included;
    the probe is counted in [total] in every case. *)
Theorem C1_failure_counted_iff_error
    (DurationString : Z -> string) (TrimSpace : string -> string)
    (p : Pinger) (stats : Stats) :
  (failedTotal (logStats DurationString TrimSpace p stats)
     = wrap64 (failedTotal p + 1)
   <-> Error stats <> None) /\
  total (fold DurationString TrimSpace p stats) = wrap64 (total p + 1).
Proof.
  split; [| apply fold_total].
  rewrite logStats_failedTotal.
  destruct (Error stats) as [err |]; split; try done.
  intros H. symmetry in H. by apply wrap64_succ_neq in H.
Qed.

(** C1 as stated fails: the record of a cancelled probe raises the failure
    count although its error is the cancellation error. *)
Lemma C1_cancellation_is_counted :
  errors_Is IsCanceled Canceled = true /\
  failedTotal (logStats sampleDurationString sampleTrimSpace
                 (started (NewPinger [] "tcp://example.com:80" 0 0))
                 cancelledStats) = 1 /\
  ~ failureCountedIffUncancelled sampleDurationString sampleTrimSpace
      (started (NewPinger [] "tcp://example.com:80" 0 0)) cancelledStats.
Proof.
  split; [reflexivity |]. split; [reflexivity |].
  unfold failureCountedIffUncancelled. intros [Hcount _].
  destruct (Hcount eq_refl) as (err & Herr & Hc).
  injection Herr as <-. discriminate Hc.
Qed.

(** C5. After folding the records [r :: records] of a run, whose durations
    are int64 values and not all negative, the accumulator holds the
    least and the greatest of their durations and their sum (as Go adds:
    modulo 2^64; the sum itself while it fits an int64), whatever the
    records' errors are. *)
Theorem C5_fold_min_max_total
    (DurationString : Z -> string) (TrimSpace : string -> string)
    (out : list string) (url : string) (interval counter : Z)
    (r : Stats) (records : list Stats)
    (Hd : Forall (fun s => int64_range (Duration s)) (r :: records))
    (Hpos : 0 <= maximum (Duration r) (durations records)) :
  let p := foldl (fold DurationString TrimSpace)
             (started (NewPinger out url interval counter)) (r :: records) in
  minDuration p = minimum (Duration r) (durations records) /\
  maxDuration p = maximum (Duration r) (durations records) /\
  totalDuration p = wrap64 (sum (durations (r :: records))) /\
  (int64_range (sum (durations (r :: records))) ->
   totalDuration p = sum (durations (r :: records))).
Proof.
  intros p. subst p.
  assert (Htotal :
    totalDuration (foldl (fold DurationString TrimSpace)
                     (started (NewPinger out url interval counter)) (r :: records))
      = wrap64 (sum (durations (r :: records)))).
  { rewrite foldl_fold_totalDuration; [done |].
    unfold int64_range, MinInt64, MaxInt64. simpl. lia. }
  apply Forall_cons in Hd as [Hr _].
  split; [| split; [| split]].
  - rewrite foldl_fold_minDuration.
    change (foldr Z.min (minDuration (started (NewPinger out url interval counter)))
              (durations (r :: records)))
      with (Z.min (Duration r) (foldr Z.min MaxInt64 (durations records))).
    rewrite foldr_min_base.
    pose proof (minimum_le MaxInt64 (Duration r) (durations records)) as Hle.
    unfold int64_range in Hr. lia.
  - rewrite foldl_fold_maxDuration.
    change (foldr Z.max (maxDuration (started (NewPinger out url interval counter)))
              (durations (r :: records)))
      with (Z.max (Duration r) (foldr Z.max 0 (durations records))).
    rewrite foldr_max_base. lia.
  - exact Htotal.
  - intros Hfit. rewrite Htotal. by apply wrap64_id.
Qed.

Lemma C5_fold_min_max_total_witness :
  Forall (fun s => int64_range (Duration s))
    [mkStats true None 7 1 "a" ∅ None; cancelledStats;
     mkStats false (Some EOF) 9 1 "a" ∅ None] /\
  0 <= maximum 7 [5; 9] /\
  minDuration (foldl (fold sampleDurationString sampleTrimSpace)
                 (started (NewPinger [] "tcp://example.com:80" 0 0))
                 [mkStats true None 7 1 "a" ∅ None; cancelledStats;
                  mkStats false (Some EOF) 9 1 "a" ∅ None])
    = minimum 7 [5; 9].
Proof.
  assert (H : Forall (fun s => int64_range (Duration s))
                [mkStats true None 7 1 "a" ∅ None; cancelledStats;
                 mkStats false (Some EOF) 9 1 "a" ∅ None]).
  { repeat constructor; simpl; unfold MinInt64, MaxInt64; lia. }
  assert (H' : 0 <= maximum 7 [5; 9]) by (simpl; lia).
  split; [exact H |]. split; [exact H' |].
  exact (proj1 (C5_fold_min_max_total sampleDurationString sampleTrimSpace
                  [] "tcp://example.com:80" 0 0 _ _ H H')).
Defined.

(** C6. After the [N] records of a run have been folded, [total] is [N],
    the failure count lies between 0 and [total], and from the first
    record on [minDuration <= maxDuration]; every fold step keeps this
    invariant. ([N] and [total] stay within an [int].) *)
Theorem C6_accumulator_invariant
    (DurationString : Z -> string) (TrimSpace : string -> string)
    (out : list string) (url : string) (interval counter : Z)
    (records : list Stats)
    (Hlen : Z.of_nat (length records) <= MaxInt64) :
  let p := foldl (fold DurationString TrimSpace)
             (started (NewPinger out url interval counter)) records in
  total p = Z.of_nat (length records) /\
  0 <= failedTotal p <= total p /\
  (records <> [] -> minDuration p <= maxDuration p) /\
  (forall (q : Pinger) (stats : Stats),
      accumulatorInv q -> total q < MaxInt64 ->
      accumulatorInv (fold DurationString TrimSpace q stats)).
Proof.
  intros p. subst p.
  destruct (foldl_fold_inv DurationString TrimSpace
              (started (NewPinger out url interval counter)) records)
    as [Ht [Hf Hm]]; [| done | done |].
  { unfold accumulatorInv. simpl. lia. }
  split; [done |]. split; [done |]. split.
  - intros Hne. apply Hm. rewrite Ht.
    destruct records; [done | simpl; lia].
  - intros q stats. apply fold_accumulatorInv.
Qed.

Lemma C6_accumulator_invariant_witness :
  Z.of_nat (length [cancelledStats; mkStats true None 7 1 "a" ∅ None]) <= MaxInt64 /\
  total (foldl (fold sampleDurationString sampleTrimSpace)
           (started (NewPinger [] "tcp://example.com:80" 0 0))
           [cancelledStats; mkStats true None 7 1 "a" ∅ None]) = 2.
Proof.
  assert (H : Z.of_nat (length [cancelledStats; mkStats true None 7 1 "a" ∅ None])
              <= MaxInt64) by (simpl; unfold MaxInt64; lia).
  split; [exact H |].
  exact (proj1 (C6_accumulator_invariant sampleDurationString sampleTrimSpace
                  [] "tcp://example.com:80" 0 0 _ H)).
Defined.

(** C10. For a record whose error is not nil, [logStats] updates the
    counters; when the error is a cancellation it writes nothing, and
    otherwise it writes exactly one per-probe line: the chunk that starts
    with "Ping " and carries the normalized error, then the metadata, the
    line feed and the extra block when there is one. *)
Theorem C10_cancelled_probe_prints_nothing
    (DurationString : Z -> string) (TrimSpace : string -> string)
    (p : Pinger) (stats : Stats) (err : error)
    (Herr : Error stats = Some err) :
  let p' := logStats DurationString TrimSpace p stats in
  (minDuration p' = Z.min (Duration stats) (minDuration p) /\
   maxDuration p' = Z.max (Duration stats) (maxDuration p) /\
   totalDuration p' = wrap64 (totalDuration p + Duration stats) /\
   failedTotal p' = wrap64 (failedTotal p + 1)) /\
  (errors_Is IsCanceled err = true -> out p' = out p) /\
  (errors_Is IsCanceled err = false ->
   exists (line : string) (rest : list string),
     out p' = (out p ++ line :: rest)%list /\
     line = "Ping " +:+ url p +:+ "(" +:+ Address stats +:+ ") "
              +:+ (if Connected stats then "Connected" else "Failed")
              +:+ "(" +:+ formatError err +:+ ") - time="
              +:+ padRight 10 (DurationString (Duration stats))
              +:+ " dns=" +:+ padRight 9 (DurationString (DNSDuration stats)) /\
     rest = lineTail TrimSpace stats /\
     isProbeLine line = true /\
     Forall (fun chunk => isProbeLine chunk = false) rest /\
     LF ∈ rest).
Proof.
  intros p'. subst p'. split; [| split].
  - rewrite logStats_minDuration, logStats_maxDuration, logStats_totalDuration,
      logStats_failedTotal, Herr. done.
  - intros Hc. by eapply logStats_out_canceled.
  - intros Hc. eexists _, _.
    split; [by eapply logStats_out_failed |].
    split; [reflexivity |]. split; [reflexivity |].
    split; [apply prefix_append |].
    split; [apply lineTail_no_probe_line |].
    unfold lineTail. rewrite !elem_of_app, list_elem_of_singleton. tauto.
Qed.

Lemma C10_cancelled_probe_prints_nothing_witness :
  Error cancelledStats = Some Canceled /\
  out (logStats sampleDurationString sampleTrimSpace
         (started (NewPinger ["header"] "tcp://example.com:80" 0 0))
         cancelledStats) = ["header"].
Proof.
  split; [reflexivity |].
  exact (proj1 (proj2 (C10_cancelled_probe_prints_nothing
                         sampleDurationString sampleTrimSpace
                         (started (NewPinger ["header"] "tcp://example.com:80" 0 0))
                         cancelledStats Canceled eq_refl)) eq_refl).
Defined.

(** C2, the defect. [Summarize] divides by [total] without a guard: on a
    Pinger that has folded no probe (fresh from [NewPinger], or after a
    [Ping] that was stopped before its first probe) the division panics. *)
Theorem C2_Summarize_divides_by_zero
    (DurationString : Z -> string) (TrimSpace : string -> string)
    (probe : nat -> Stats)
    (out : list string) (url : string) (interval counter : Z) :
  Summarize DurationString (NewPinger out url interval counter) = None /\
  Ping DurationString TrimSpace probe [StopCall; DoneC]
       (NewPinger out url interval counter)
    = Some (mkLoop (set_stop (started (NewPinger out url interval counter))) 0 true) /\
  Summarize DurationString
    (set_stop (started (NewPinger out url interval counter))) = None.
Proof. repeat split. Qed.

(** ** The loop *)

Section Loop.

Variable DurationString : Z -> string.
Variable TrimSpace : string -> string.
Variable probe : nat -> Stats.

Abbreviation tick' := (tick DurationString TrimSpace probe).
Abbreviation step' := (step DurationString TrimSpace probe).
Abbreviation run' := (run DurationString TrimSpace probe).
Abbreviation Ping' := (Ping DurationString TrimSpace probe).

Lemma tick_pinger (st : loop) :
  counter (pinger (tick' st)) = counter (pinger st) /\
  stopC (pinger (tick' st)) = stopC (pinger st) /\
  stopOnce (pinger (tick' st)) = stopOnce (pinger st) /\
  total (pinger (tick' st)) = wrap64 (total (pinger st) + 1) /\
  calls (tick' st) = S (calls st) /\
  stop (tick' st) =
    (counter (pinger st) >? 0)
    && (wrap64 (total (pinger st) + 1) >? wrap64 (counter (pinger st) - 1)).
Proof.
  unfold tick. cbn [pinger calls stop].
  destruct (fold_logStats DurationString TrimSpace (pinger st) (probe (calls st)))
    as (_ & _ & _ & _ & Hc & HsC & HsO & _).
  by rewrite Hc, HsC, HsO, fold_total.
Qed.

Ltac goal_decide :=
  match goal with
  | |- context [decide ?P] => destruct (decide P)
  end.

Lemma run_stopped (schedule : list event) (st : loop) :
  stop st = true -> run' schedule st = Some st.
Proof. intros H. destruct schedule; simpl; by rewrite H. Qed.

Lemma run_cons (ev : event) (schedule : list event) (st : loop) :
  stop st = false ->
  run' (ev :: schedule) st = step' ev st ≫= run' schedule.
Proof. intros H. simpl. by rewrite H. Qed.

Lemma run_app (s1 s2 : list event) (st : loop) :
  run' (s1 ++ s2) st = run' s1 st ≫= run' s2.
Proof.
  revert st. induction s1 as [| ev s1 IH]; intros st.
  - simpl. destruct (stop st) eqn:Hs; simpl; [| done].
    by rewrite run_stopped.
  - destruct (stop st) eqn:Hs.
    + rewrite !run_stopped by done. simpl. by rewrite run_stopped.
    + rewrite <- app_comm_cons, !run_cons by done.
      destruct (step' ev st) as [st' |]; simpl; [apply IH | done].
Qed.

(** The loop over a schedule in which nobody calls [Stop], from a state
    with the channel open: it stops at the [counter]-th probe when
    [counter > 0], and not at all otherwise. *)
Lemma run_timers (n : Z) (schedule : list event) (st : loop) :
  Forall (fun ev => isStopCall ev = false) schedule ->
  int64_range n ->
  stop st = false -> stopC (pinger st) = false ->
  stopOnce (pinger st) = false -> counter (pinger st) = n ->
  (0 < n -> total (pinger st) = Z.of_nat (calls st) /\ Z.of_nat (calls st) < n) ->
  exists st',
    run' schedule st = Some st' /\
    stopC (pinger st') = false /\ stopOnce (pinger st') = false /\
    counter (pinger st') = n /\
    if decide (0 < n <= Z.of_nat (calls st + timers schedule))
    then stop st' = true /\ Z.of_nat (calls st') = n
    else stop st' = false /\ calls st' = (calls st + timers schedule)%nat.
Proof.
  intros Hext Hn. revert st.
  induction Hext as [| ev schedule Hev _ IH]; intros st Hstop HsC HsO Hc Ht.
  - exists st. simpl. rewrite Hstop. repeat split; try done.
    unfold timers. simpl. rewrite Nat.add_0_r.
    goal_decide; [lia | done].
  - rewrite run_cons by done.
    destruct ev; [| | discriminate Hev].
    + (* the timer fires *)
      destruct (tick_pinger st) as (Hc' & HsC' & HsO' & Ht' & Hcalls & Hstop').
      cbn [step mbind option_bind].
      replace (timers (TimerC :: schedule)) with (S (timers schedule))
        by (unfold timers; simpl; by case_decide).
      rewrite Hc in Hstop'.
      destruct (decide (0 < n)) as [Hpos | Hnpos].
      * destruct (Ht Hpos) as [Htot Hlt].
        unfold int64_range, MinInt64, MaxInt64 in Hn.
        rewrite Htot in Hstop', Ht'.
        rewrite !wrap64_id in Hstop'
          by (unfold int64_range, MinInt64, MaxInt64; lia).
        rewrite wrap64_id in Ht'
          by (unfold int64_range, MinInt64, MaxInt64; lia).
        rewrite !Z.gtb_ltb in Hstop'.
        destruct (decide (n <= Z.of_nat (calls st) + 1)) as [Hlast | Hmore].
        -- exists (tick' st).
           assert (Hs : stop (tick' st) = true).
           { rewrite Hstop'. apply andb_true_iff. split; apply Z.ltb_lt; lia. }
           rewrite run_stopped by done.
           rewrite Hc', HsC', HsO', Hcalls.
           repeat split; try done.
           goal_decide; [split; [done | lia] | lia].
        -- assert (Hs : stop (tick' st) = false).
           { rewrite Hstop'. apply andb_false_iff. right. apply Z.ltb_ge. lia. }
           assert (Hpre : 0 < n ->
                     total (pinger (tick' st)) = Z.of_nat (calls (tick' st)) /\
                     Z.of_nat (calls (tick' st)) < n)
             by (intros _; rewrite Ht', Hcalls; lia).
           destruct (IH (tick' st) Hs ltac:(congruence) ltac:(congruence)
                       ltac:(congruence) Hpre)
             as (st' & Hrun & H1 & H2 & H3 & H4).
           exists st'. rewrite Hcalls in H4.
           repeat split; try done.
           replace (calls st + S (timers schedule))%nat
             with (S (calls st) + timers schedule)%nat by lia.
           exact H4.
      * assert (Hs : stop (tick' st) = false).
        { rewrite Hstop'. apply andb_false_iff. left.
          rewrite Z.gtb_ltb. apply Z.ltb_ge. lia. }
        assert (Hpre : 0 < n ->
                  total (pinger (tick' st)) = Z.of_nat (calls (tick' st)) /\
                  Z.of_nat (calls (tick' st)) < n) by lia.
        destruct (IH (tick' st) Hs ltac:(congruence) ltac:(congruence)
                    ltac:(congruence) Hpre)
          as (st' & Hrun & H1 & H2 & H3 & H4).
        exists st'. rewrite Hcalls in H4.
        repeat split; try done.
        replace (calls st + S (timers schedule))%nat
          with (S (calls st) + timers schedule)%nat by lia.
        exact H4.
    + (* the channel is open: the Done case is not enabled *)
      cbn [step]. rewrite HsC. cbn [mbind option_bind].
      replace (timers (DoneC :: schedule)) with (timers schedule)
        by (unfold timers; simpl; by case_decide).
      by apply IH.
Qed.

(** [Ping] on a fresh Pinger, for a schedule without [Stop] calls. *)
Lemma Ping_timers (out : list string) (url : string) (interval n : Z)
    (schedule : list event) :
  Forall (fun ev => isStopCall ev = false) schedule ->
  int64_range n ->
  exists st',
    run' schedule (mkLoop (started (NewPinger out url interval n)) 0 false)
      = Some st' /\
    stopC (pinger st') = false /\ stopOnce (pinger st') = false /\
    if decide (0 < n <= Z.of_nat (timers schedule))
    then stop st' = true /\ Z.of_nat (calls st') = n
    else stop st' = false /\ calls st' = timers schedule.
Proof.
  intros Hext Hn.
  assert (Hpre : 0 < n ->
            total (started (NewPinger out url interval n)) = Z.of_nat 0 /\
            Z.of_nat 0 < n) by (cbn; lia).
  destruct (run_timers n schedule
              (mkLoop (started (NewPinger out url interval n)) 0 false)
              Hext Hn eq_refl eq_refl eq_refl eq_refl Hpre)
    as (st' & Hrun & HsC & HsO & _ & Hres).
  exists st'. by repeat split.
Qed.

Lemma step_leaves_running (ev : event) (st st' : loop) :
  stop st = false -> int64_range (counter (pinger st)) ->
  step' ev st = Some st' -> stop st' = true ->
  (ev = DoneC /\ stopC (pinger st) = true) \/
  (ev = TimerC /\ 0 < counter (pinger st) <= total (pinger st')).
Proof.
  intros Hrun Hc Hstep Hstop. destruct ev; cbn [step] in Hstep.
  - right. injection Hstep as <-. split; [done |].
    destruct (tick_pinger st) as (_ & _ & _ & Ht & _ & Hs).
    rewrite Hs in Hstop. apply andb_true_iff in Hstop as [Hpos Hgt].
    rewrite Z.gtb_ltb in Hpos, Hgt. apply Z.ltb_lt in Hpos, Hgt.
    rewrite Ht. unfold int64_range, MinInt64, MaxInt64 in Hc.
    rewrite (wrap64_id (counter (pinger st) - 1)) in Hgt
      by (unfold int64_range, MinInt64, MaxInt64; lia).
    lia.
  - left. destruct (stopC (pinger st)); [done |].
    injection Hstep as <-. congruence.
  - destruct (Stop (pinger st)); [| done].
    injection Hstep as <-. simpl in Hstop. congruence.
Qed.

Lemma step_closes_channel (ev : event) (st st' : loop) :
  step' ev st = Some st' -> stopC (pinger st') = true ->
  stopC (pinger st) = true \/ ev = StopCall.
Proof.
  intros Hstep Hclosed. destruct ev; cbn [step] in Hstep; [| | by right].
  - left. injection Hstep as <-.
    destruct (tick_pinger st) as (_ & HsC & _). congruence.
  - left. destruct (stopC (pinger st)) eqn:E; [done |].
    injection Hstep as <-. congruence.
Qed.

End Loop.

(** C3. [Ping] on a fresh Pinger with bound [n], along any schedule in
    which nobody calls [Stop]: for [n > 0] the loop is still running while
    the timer has fired fewer than [n] times, and once it has fired [n]
    times the loop has been left after exactly [n] probes and [Ping] has
    closed the channel itself; for [n <= 0] the loop is still running
    however often the timer fires, and it is left once a [Stop] call
    arrives. One event leaves the running loop only as the [Done] case
    with the channel closed or as a tick that reaches the positive bound,
    and only a [Stop] call closes the channel while the loop runs. *)
Theorem C3_loop_left_by_bound_or_stop
    (DurationString : Z -> string) (TrimSpace : string -> string)
    (probe : nat -> Stats)
    (out : list string) (url : string) (interval n : Z)
    (schedule : list event)
    (Hn : int64_range n)
    (Hext : Forall (fun ev => isStopCall ev = false) schedule) :
  let Ping' := Ping DurationString TrimSpace probe in
  let p := NewPinger out url interval n in
  (0 < n -> Z.of_nat (timers schedule) < n ->
   exists st, Ping' schedule p = Some st /\
              stop st = false /\ calls st = timers schedule) /\
  (0 < n -> n <= Z.of_nat (timers schedule) ->
   exists st, Ping' schedule p = Some st /\
              stop st = true /\ Z.of_nat (calls st) = n /\
              stopC (pinger st) = true) /\
  (n <= 0 ->
   exists st, Ping' schedule p = Some st /\
              stop st = false /\ calls st = timers schedule) /\
  (n <= 0 ->
   exists st, Ping' (schedule ++ [StopCall; DoneC])%list p = Some st /\
              stop st = true /\ calls st = timers schedule /\
              stopC (pinger st) = true) /\
  (forall (ev : event) (st st' : loop),
      stop st = false -> int64_range (counter (pinger st)) ->
      step DurationString TrimSpace probe ev st = Some st' ->
      stop st' = true ->
      (ev = DoneC /\ stopC (pinger st) = true) \/
      (ev = TimerC /\ 0 < counter (pinger st) <= total (pinger st'))) /\
  (forall (ev : event) (st st' : loop),
      step DurationString TrimSpace probe ev st = Some st' ->
      stopC (pinger st') = true ->
      stopC (pinger st) = true \/ ev = StopCall).
Proof.
  intros Ping' p. subst Ping' p.
  destruct (Ping_timers DurationString TrimSpace probe out url interval n
              schedule Hext Hn) as (st' & Hrun & HsC & HsO & Hres).
  split; [| split; [| split; [| split; [| split]]]].
  - intros Hpos Hlt. destruct (decide _) as [Hd | _] in Hres; [lia |].
    destruct Hres as [Hstop Hcalls].
    exists st'. unfold Ping, started in *. rewrite Hrun. simpl.
    by rewrite Hstop.
  - intros Hpos Hge. destruct (decide _) as [_ | Hd] in Hres; [| lia].
    destruct Hres as [Hstop Hcalls].
    exists (mkLoop (set_stop (pinger st')) (calls st') true).
    unfold Ping, started in *. rewrite Hrun. simpl.
    rewrite Hstop. unfold Stop. by rewrite HsO, HsC.
  - intros Hle. destruct (decide _) as [Hd | _] in Hres; [lia |].
    destruct Hres as [Hstop Hcalls].
    exists st'. unfold Ping, started in *. rewrite Hrun. simpl.
    by rewrite Hstop.
  - intros Hle. destruct (decide _) as [Hd | _] in Hres; [lia |].
    destruct Hres as [Hstop Hcalls].
    exists (mkLoop (set_stop (pinger st')) (calls st') true).
    unfold Ping, started in *. rewrite run_app, Hrun. simpl.
    rewrite Hstop. unfold Stop. simpl. rewrite HsO, HsC. simpl.
    unfold Stop. simpl. done.
  - apply step_leaves_running.
  - apply step_closes_channel.
Qed.

Lemma C3_loop_left_by_bound_or_stop_witness :
  int64_range 3 /\
  Forall (fun ev => isStopCall ev = false) [TimerC; TimerC; TimerC; TimerC] /\
  exists st,
    Ping sampleDurationString sampleTrimSpace (fun _ => cancelledStats)
      [TimerC; TimerC; TimerC; TimerC] (NewPinger [] "tcp://example.com:80" 0 3)
      = Some st /\
    stop st = true /\ Z.of_nat (calls st) = 3 /\ stopC (pinger st) = true.
Proof.
  assert (Hn : int64_range 3) by (unfold int64_range, MinInt64, MaxInt64; lia).
  assert (Hext : Forall (fun ev => isStopCall ev = false)
                   [TimerC; TimerC; TimerC; TimerC]) by (repeat constructor).
  split; [exact Hn |]. split; [exact Hext |].
  apply (proj1 (proj2 (C3_loop_left_by_bound_or_stop
                         sampleDurationString sampleTrimSpace
                         (fun _ => cancelledStats)
                         [] "tcp://example.com:80" 0 3
                         [TimerC; TimerC; TimerC; TimerC] Hn Hext)));
    [lia | vm_compute; discriminate].
Defined.

(** ** The error normalizer *)

Lemma substringCategory_firstMatch (text : string) :
  substringCategory text = firstMatch phraseTable text.
Proof.
  unfold substringCategory, firstMatch, phraseTable. cbn [find fst snd].
  repeat (case_match; try done).
Qed.

Lemma firstMatch_first (table before after : list (string * string))
    (row : string * string) (text : string) :
  table = (before ++ row :: after)%list ->
  Forall (fun r => Contains text r.1 = false) before ->
  Contains text row.1 = true ->
  firstMatch table text = row.2.
Proof.
  intros -> Hbefore Hrow. unfold firstMatch.
  induction Hbefore as [| r before Hr _ IH]; simpl.
  - by rewrite Hrow.
  - rewrite Hr. exact IH.
Qed.

Lemma firstMatch_none (table : list (string * string)) (text : string) :
  Forall (fun r => Contains text r.1 = false) table ->
  firstMatch table text = text.
Proof.
  intros Hnone. unfold firstMatch.
  induction Hnone as [| r table Hr _ IH]; simpl; [done |].
  by rewrite Hr.
Qed.

Section NormalizerFacts.

Variable timedOut : string.

Lemma formatErrorWith_unfold (err : error) :
  formatErrorWith timedOut err =
    match err with
    | UrlError _ _ inner =>
        if asserted (Timeout err) then timedOut
        else formatErrorWith timedOut inner
    | _ =>
        if is_net_Error err then
          if asserted (Timeout err) then timedOut
          else
            match err with
            | OpError _ _ _ _ (SyscallError _ inner) =>
                formatErrorWith timedOut inner
            | _ => afterTypeSwitch err
            end
        else
          if errors_Is IsDeadlineExceeded err then timedOut
          else afterTypeSwitch err
    end.
Proof. destruct err; reflexivity. Qed.

Lemma is_net_Error_EOF (err : error) :
  is_EOF err = true -> is_net_Error err = false.
Proof. by destruct err. Qed.

Lemma is_net_Error_OpError (err : error) :
  is_OpError err = true -> is_net_Error err = true.
Proof. by destruct err. Qed.

(** One layer of the normalizer: the typed checks decide, or hand over
    a cause, before the text of the error is looked at. *)
Lemma formatErrorWith_layer (err : error) :
  formatErrorWith timedOut err =
    match layerOutcome timedOut err with
    | Category category => category
    | Unwrapped inner => formatErrorWith timedOut inner
    | Leaf => firstMatch phraseTable (Error_text err)
    end.
Proof.
  rewrite formatErrorWith_unfold, <- substringCategory_firstMatch.
  unfold layerOutcome, afterTypeSwitch.
  generalize (substringCategory (Error_text err)). intros fallback.
  pose proof (is_net_Error_EOF err) as HEOF.
  pose proof (is_net_Error_OpError err) as HOp.
  generalize dependent (asserted (Timeout err)). intros t.
  generalize dependent (asserted (Temporary err)). intros tmp.
  generalize dependent (errors_Is IsDeadlineExceeded err). intros deadline.
  generalize dependent (is_net_Error err). intros net HEOF HOp.
  destruct err as [| | | s | msg inner | n text | call inner
                  | name server derr isTimeout isTemporary
                  | op net' source addr inner | op url inner
                  | text timeout temporary isC isD cause];
    cbn [is_EOF is_OpError opErrCategory] in *;
    try (destruct inner as [| | | | | | ? [] | | | |]);
    destruct t, tmp, deadline, net; try done;
    try discriminate (HEOF eq_refl); try discriminate (HOp eq_refl).
Qed.

(** A deadline error anywhere below a layer that is neither a
    [*url.Error] nor a [net.Error]: the [errors.Is] check finds it. *)
Lemma formatErrorWith_generic_deadline (err : error) :
  is_UrlError err = false -> is_net_Error err = false ->
  errors_Is IsDeadlineExceeded err = true ->
  formatErrorWith timedOut err = timedOut.
Proof.
  intros Hurl Hnet His. rewrite formatErrorWith_unfold, Hnet, His.
  by destruct err.
Qed.

Ltac wrap_cbn :=
  cbn [wrap hidesDeadline layerOutcome is_net_Error Timeout Temporary
       asserted default from_option id errors_Is matches is_EOF
       isConnError orb andb].

(** A deadline error under two wrappers of the Go library. *)
Lemma formatErrorWith_two_layers (outer inner : wrapper) :
  formatErrorWith timedOut (wrap outer (wrap inner DeadlineExceeded)) =
    if hidesDeadline outer inner
    then substringCategory
           (Error_text (wrap outer (wrap inner DeadlineExceeded)))
    else timedOut.
Proof.
  rewrite formatErrorWith_unfold.
  destruct outer as [msg | call | op net source addr | op url],
           inner as [msg' | call' | op' net' source' addr' | op' url'];
    wrap_cbn; try done.
  (* what is left: OpError over a %w wrapper *)
  unfold afterTypeSwitch. wrap_cbn. cbn [opErrCategory].
  destruct (String.eqb op "accept"); by wrap_cbn.
Qed.

End NormalizerFacts.

(** C4, as the code has it, for [FormatError] and [Pinger.formatError]
    alike ([timedOut] is the text either returns for a timeout).
    - At each layer the typed checks run first: they return a category or
      continue with a cause, and only when they decide nothing is the
      text of that layer looked up.
    - The lookup goes through the phrases in the fixed order of
      [phraseTable]; the first phrase found wins; a text with none of the
      phrases is returned as it is.
    - A deadline error below a layer that is neither a [*url.Error] nor a
      [net.Error] normalizes to [timedOut] whatever the texts are; under
      two library wrappers it does so except under a [*net.OpError]
      directly over a [%w] wrapper, where the text lookup decides. *)
Theorem C4_typed_checks_before_phrases
    (timedOut : string) (err : error) (text : string) (outer inner : wrapper) :
  formatErrorWith timedOut err =
    match layerOutcome timedOut err with
    | Category category => category
    | Unwrapped cause => formatErrorWith timedOut cause
    | Leaf => substringCategory (Error_text err)
    end /\
  substringCategory text = firstMatch phraseTable text /\
  (forall (before after : list (string * string)) (row : string * string),
      phraseTable = (before ++ row :: after)%list ->
      Forall (fun r => Contains text r.1 = false) before ->
      Contains text row.1 = true ->
      substringCategory text = row.2) /\
  (Forall (fun r => Contains text r.1 = false) phraseTable ->
   substringCategory text = text) /\
  (is_UrlError err = false -> is_net_Error err = false ->
   errors_Is IsDeadlineExceeded err = true ->
   formatErrorWith timedOut err = timedOut) /\
  formatErrorWith timedOut (wrap outer (wrap inner DeadlineExceeded)) =
    (if hidesDeadline outer inner
     then substringCategory
            (Error_text (wrap outer (wrap inner DeadlineExceeded)))
     else timedOut).
Proof.
  split; [| split; [| split; [| split; [| split]]]].
  - rewrite substringCategory_firstMatch. apply formatErrorWith_layer.
  - apply substringCategory_firstMatch.
  - intros before after row Htable Hbefore Hrow.
    rewrite substringCategory_firstMatch. by eapply firstMatch_first.
  - intros Hnone. rewrite substringCategory_firstMatch.
    by apply firstMatch_none.
  - apply formatErrorWith_generic_deadline.
  - apply formatErrorWith_two_layers.
Qed.

Lemma C4_typed_checks_before_phrases_witness :
  is_UrlError (WrapError "connection refused: x" (WrapError "x" DeadlineExceeded))
    = false /\
  FormatError (WrapError "connection refused: x" (WrapError "x" DeadlineExceeded))
    = "连接超时".
Proof.
  split; [reflexivity |].
  exact (proj1 (proj2 (proj2 (proj2 (proj2
           (C4_typed_checks_before_phrases "连接超时"
              (WrapError "connection refused: x" (WrapError "x" DeadlineExceeded))
              "x" (WrapW "a") (WrapW "b"))))))
         eq_refl eq_refl eq_refl).
Defined.

(** C4 as stated fails twice. A deadline error two layers down, under a
    [*net.OpError] over a [%w] wrapper, is not normalized to the timeout
    category: the phrase in the text decides. And when nothing matches
    under a [*url.Error], the text of the cause is returned, not the text
    of the error that was passed in. *)
Lemma C4_deadline_hidden_by_OpError :
  errors_Is IsDeadlineExceeded hiddenDeadline = true /\
  FormatError hiddenDeadline = "连接被拒绝" /\
  formatError hiddenDeadline = "连接被拒绝" /\
  FormatError hiddenDeadline <> "连接超时" /\
  formatError hiddenDeadline <> "超时" /\
  FormatError wrappedUnknown = "boom" /\
  FormatError wrappedUnknown <> Error_text wrappedUnknown.
Proof.
  repeat split; done.
Qed.

(** * Further properties *)

(** ** The Pinger beyond the loop bound *)

Section PingerFacts.

Variable DurationString : Z -> string.
Variable TrimSpace : string -> string.
Variable probe : nat -> Stats.

Abbreviation logStats'' := (logStats DurationString TrimSpace).
Abbreviation fold'' := (fold DurationString TrimSpace).
Abbreviation tick'' := (tick DurationString TrimSpace probe).
Abbreviation step'' := (step DurationString TrimSpace probe).
Abbreviation run'' := (run DurationString TrimSpace probe).

Ltac fields_cbn :=
  cbn [stopOnce stopC out url interval counter minDuration maxDuration
       totalDuration total failedTotal set_stop set_out set_minDuration
       set_maxDuration set_totalDuration set_total set_failedTotal Fprint
       pinger calls stop] in *.

Lemma logStats_out_success (p : Pinger) (stats : Stats) :
  Error stats = None ->
  out (logStats'' p stats) =
    (out p ++
     ("Ping " +:+ url p +:+ "(" +:+ Address stats +:+ ") "
        +:+ (if Connected stats then "Connected" else "Failed")
        +:+ " - time="
        +:+ padRight 10 (DurationString (Duration stats))
        +:+ " dns=" +:+ padRight 9 (DurationString (DNSDuration stats)))
     :: lineTail TrimSpace stats)%list.
Proof.
  intros Herr. unfold logStats, printStats, lineTail. cbv zeta.
  rewrite Herr.
  repeat (case_match; fields_cbn); rewrite <- ?app_assoc; try done.
Qed.

Lemma probeLines_app (a b : list string) :
  probeLines (a ++ b) = (probeLines a + probeLines b)%nat.
Proof. unfold probeLines. by rewrite filter_app, length_app. Qed.

Lemma probeLines_lineTail (stats : Stats) :
  probeLines (lineTail TrimSpace stats) = 0%nat.
Proof.
  unfold probeLines.
  pose proof (lineTail_no_probe_line TrimSpace stats) as H.
  induction H as [| chunk rest Hc _ IH]; [done |].
  rewrite filter_cons_False by congruence. exact IH.
Qed.

(** What one record adds to the writer. *)
Lemma logStats_written (p : Pinger) (stats : Stats) :
  exists w : list string,
    out (logStats'' p stats) = (out p ++ w)%list /\
    probeLines w = if suppressed stats then 0%nat else 1%nat.
Proof.
  unfold suppressed. destruct (Error stats) as [err |] eqn:Herr.
  - destruct (errors_Is IsCanceled err) eqn:Hc.
    + exists []. rewrite app_nil_r. split; [| done].
      by eapply logStats_out_canceled.
    + eexists (_ :: lineTail TrimSpace stats). split.
      * by eapply logStats_out_failed.
      * unfold probeLines. rewrite filter_cons_True by apply prefix_append.
        cbn [length]. f_equal. apply probeLines_lineTail.
  - eexists (_ :: lineTail TrimSpace stats). split.
    + by apply logStats_out_success.
    + unfold probeLines. rewrite filter_cons_True by apply prefix_append.
      cbn [length]. f_equal. apply probeLines_lineTail.
Qed.

Lemma Stop_guarded (p : Pinger) :
  onceGuards p ->
  exists p', Stop p = Some p' /\
    stopOnce p' = true /\ stopC p' = true /\
    out p' = out p /\ total p' = total p /\ counter p' = counter p.
Proof.
  unfold onceGuards, Stop. intros Hg.
  destruct (stopOnce p) eqn:Honce.
  - exists p. by repeat split.
  - rewrite Hg. exists (set_stop p). by repeat split.
Qed.

Lemma timers_cons (ev : event) (schedule : list event) :
  timers (ev :: schedule) =
    ((if isTimerC ev then 1 else 0) + timers schedule)%nat.
Proof.
  unfold timers. destruct ev; cbn [isTimerC].
  - by rewrite filter_cons_True.
  - by rewrite filter_cons_False.
  - by rewrite filter_cons_False.
Qed.

Lemma printedBetween_S (first count : nat) :
  printedBetween probe first (S count) =
    ((if suppressed (probe first) then 0 else 1)
     + printedBetween probe (S first) count)%nat.
Proof.
  unfold printedBetween. cbn [seq].
  destruct (suppressed (probe first)) eqn:Hs.
  - by rewrite filter_cons_False by congruence.
  - by rewrite filter_cons_True.
Qed.

(** The loop from a state in which the channel and the Once agree, along
    any schedule: it does not panic, it invokes the probe at most once per
    timer event, and it only appends to the writer, one per-probe line for
    each record that is not a cancellation. *)
Lemma run_master (schedule : list event) (st : loop) :
  onceGuards (pinger st) ->
  exists (st' : loop) (w : list string),
    run'' schedule st = Some st' /\
    onceGuards (pinger st') /\
    counter (pinger st') = counter (pinger st) /\
    (calls st <= calls st' <= calls st + timers schedule)%nat /\
    out (pinger st') = (out (pinger st) ++ w)%list /\
    probeLines w = printedBetween probe (calls st) (calls st' - calls st).
Proof.
  revert st. induction schedule as [| ev schedule IH]; intros st Hg.
  - exists st, []. rewrite app_nil_r, Nat.sub_diag.
    split; [by destruct st as [? ? []] |]. repeat split; try done; lia.
  - destruct (stop st) eqn:Hstop.
    + exists st, []. rewrite app_nil_r, Nat.sub_diag, run_stopped by done.
      repeat split; try done; lia.
    + rewrite run_cons by done. rewrite timers_cons.
      destruct ev; cbn [step isTimerC].
      * (* the timer fires *)
        destruct (tick_pinger DurationString TrimSpace probe st)
          as (Hc & HsC & HsO & _ & Hcalls & _).
        destruct (logStats_written (pinger st) (probe (calls st)))
          as (w1 & Hw1 & Hn1).
        assert (Hout : out (pinger (tick'' st)) = (out (pinger st) ++ w1)%list).
        { unfold tick. cbn [pinger].
          destruct (fold_logStats DurationString TrimSpace (pinger st)
                      (probe (calls st))) as (_ & _ & _ & _ & _ & _ & _ & ->).
          exact Hw1. }
        destruct (IH (tick'' st)) as (st' & w2 & Hrun & Hg' & Hc' & Hcs & Ho & Hn2).
        { unfold onceGuards in *. congruence. }
        exists st', (w1 ++ w2)%list. cbn [mbind option_bind].
        rewrite Hcalls in Hcs, Hn2.
        split; [exact Hrun |]. split; [exact Hg' |].
        split; [congruence |]. split; [lia |].
        split; [by rewrite Ho, Hout, app_assoc |].
        rewrite probeLines_app, Hn1, Hn2.
        replace (calls st' - calls st)%nat with (S (calls st' - S (calls st)))
          by lia.
        by rewrite printedBetween_S.
      * (* the Done case *)
        destruct (stopC (pinger st)) eqn:HsC; cbn [mbind option_bind].
        -- rewrite run_stopped by done.
           exists (mkLoop (pinger st) (calls st) true), [].
           cbn [pinger calls]. rewrite app_nil_r, Nat.sub_diag.
           repeat split; try done; lia.
        -- destruct (IH st Hg) as (st' & w & Hrun & Hrest).
           exists st', w. split; [exact Hrun |].
           destruct Hrest as (? & ? & ? & ? & ?). repeat split; try done; lia.
      * (* Stop is called from outside *)
        destruct (Stop_guarded (pinger st) Hg)
          as (p' & HStop & HsO & HsC & Ho & _ & Hc).
        rewrite HStop. cbn [mbind option_bind].
        destruct (IH (mkLoop p' (calls st) (stop st)))
          as (st' & w & Hrun & Hg' & Hc' & Hcs & Hout & Hn).
        { unfold onceGuards. cbn [pinger]. congruence. }
        cbn [pinger calls] in *.
        exists st', w. split; [exact Hrun |].
        repeat split; try done; try congruence; lia.
Qed.

End PingerFacts.

Section PingerCounts.

Variable DurationString : Z -> string.
Variable TrimSpace : string -> string.
Variable probe : nat -> Stats.

Abbreviation fold3 := (fold DurationString TrimSpace).
Abbreviation tick3 := (tick DurationString TrimSpace probe).
Abbreviation run3 := (run DurationString TrimSpace probe).

Lemma Stop_fields (p p' : Pinger) :
  Stop p = Some p' ->
  total p' = total p /\ counter p' = counter p /\ out p' = out p /\
  failedTotal p' = failedTotal p /\ totalDuration p' = totalDuration p /\
  minDuration p' = minDuration p /\ maxDuration p' = maxDuration p.
Proof.
  unfold Stop. intros H.
  destruct (stopOnce p); [by injection H as <- |].
  destruct (stopC p); [done |]. by injection H as <-.
Qed.

(** While [total] cannot overflow, it counts the probe invocations, and a
    positive bound is never exceeded. *)
Lemma run_counts (schedule : list event) (st st' : loop) :
  int64_range (counter (pinger st)) ->
  total (pinger st) = Z.of_nat (calls st) ->
  Z.of_nat (calls st + timers schedule) <= MaxInt64 ->
  (0 < counter (pinger st) ->
   Z.of_nat (calls st) <= counter (pinger st) /\
   (stop st = false -> Z.of_nat (calls st) < counter (pinger st))) ->
  run3 schedule st = Some st' ->
  total (pinger st') = Z.of_nat (calls st') /\
  (0 < counter (pinger st) -> Z.of_nat (calls st') <= counter (pinger st)).
Proof.
  revert st. induction schedule as [| ev schedule IH];
    intros st Hn Ht Hmax Hb Hrun.
  - assert (st' = st) as ->.
    { simpl in Hrun. destruct (stop st); congruence. }
    split; [done |]. intros Hpos. by apply Hb.
  - destruct (stop st) eqn:Hstop.
    + rewrite run_stopped in Hrun by done. injection Hrun as <-.
      split; [done |]. intros Hpos. by apply Hb.
    + rewrite run_cons in Hrun by done. rewrite timers_cons in Hmax.
      destruct ev; cbn [step isTimerC mbind option_bind] in Hrun, Hmax.
      * (* the timer fires *)
        destruct (tick_pinger DurationString TrimSpace probe st)
          as (Hc & _ & _ & Ht' & Hcalls & Hs).
        unfold int64_range, MinInt64, MaxInt64 in *.
        rewrite Ht in Ht', Hs.
        rewrite wrap64_id in Ht'
          by (unfold int64_range, MinInt64, MaxInt64; lia).
        rewrite (wrap64_id (Z.of_nat (calls st) + 1)) in Hs
          by (unfold int64_range, MinInt64, MaxInt64; lia).
        destruct (IH (tick3 st)) as [IHt IHb]; try done.
        -- rewrite Hc. unfold int64_range, MinInt64, MaxInt64. lia.
        -- rewrite Ht', Hcalls. lia.
        -- rewrite Hcalls. unfold MaxInt64. lia.
        -- rewrite Hc, Hcalls. intros Hpos.
           destruct (Hb Hpos) as [_ Hlt]. specialize (Hlt eq_refl).
           split; [lia |]. intros Hs'. rewrite Hs' in Hs.
           rewrite wrap64_id in Hs
             by (unfold int64_range, MinInt64, MaxInt64; lia).
           symmetry in Hs. apply andb_false_iff in Hs as [Hs | Hs];
             rewrite Z.gtb_ltb in Hs; apply Z.ltb_ge in Hs; lia.
        -- split; [done |]. by rewrite Hc in IHb.
      * (* the Done case *)
        destruct (stopC (pinger st)); cbn [mbind option_bind] in Hrun.
        -- rewrite run_stopped in Hrun by done. injection Hrun as <-.
           cbn [pinger calls]. split; [done |]. intros Hpos. by apply Hb.
        -- apply (IH st Hn Ht ltac:(lia)); [by rewrite Hstop | exact Hrun].
      * (* Stop is called from outside *)
        destruct (Stop (pinger st)) as [p' |] eqn:HStop; [| done].
        destruct (Stop_fields _ _ HStop) as (Htp & Hcp & _).
        cbn [mbind option_bind] in Hrun.
        destruct (IH (mkLoop p' (calls st) (stop st))) as [IHt IHb];
          cbn [pinger calls stop]; try done; try congruence; try lia.
        cbn [pinger] in IHb. rewrite Hcp in IHb. by split.
Qed.

End PingerCounts.


(** X2. [Ping] only appends to the writer, and what it appends holds
    exactly one per-probe line for each probe whose record is not a
    cancellation. *)
Theorem Ping_prints_one_line_per_record
    (DurationString : Z -> string) (TrimSpace : string -> string)
    (probe : nat -> Stats)
    (out0 : list string) (url : string) (interval n : Z)
    (schedule : list event) :
  exists (st : loop) (w : list string),
    Ping DurationString TrimSpace probe schedule (NewPinger out0 url interval n)
      = Some st /\
    out (pinger st) = (out0 ++ w)%list /\
    probeLines w = printedBetween probe 0 (calls st).
Proof.
  destruct (run_master DurationString TrimSpace probe schedule
              (mkLoop (started (NewPinger out0 url interval n)) 0 false))
    as (st' & w & Hrun & Hg & _ & _ & Hout & Hn); [done |].
  cbn [calls pinger] in Hn, Hout. rewrite Nat.sub_0_r in Hn.
  unfold Ping, started in *. rewrite Hrun. cbn [mbind option_bind].
  destruct (stop st') eqn:Hstop.
  - destruct (Stop_guarded _ Hg) as (p' & HStop & _ & _ & Ho & _).
    rewrite HStop. eexists _, w. split; [reflexivity |].
    cbn [pinger calls]. split; [by rewrite Ho | done].
  - by exists st', w.
Qed.

(** X3. While the timer fires no more often than an [int] can count,
    [Ping] on a fresh Pinger invokes the probe at most once per timer
    event and, under a positive bound [n], at most [n] times, whatever
    else happens; [total], the "probes sent" of the summary, is the number
    of invocations. *)
Theorem Ping_probe_count
    (DurationString : Z -> string) (TrimSpace : string -> string)
    (probe : nat -> Stats)
    (out : list string) (url : string) (interval n : Z)
    (schedule : list event)
    (Hn : int64_range n)
    (Hlen : Z.of_nat (timers schedule) <= MaxInt64) :
  exists st : loop,
    Ping DurationString TrimSpace probe schedule (NewPinger out url interval n)
      = Some st /\
    (calls st <= timers schedule)%nat /\
    (0 < n -> Z.of_nat (calls st) <= n) /\
    total (pinger st) = Z.of_nat (calls st).
Proof.
  destruct (run_master DurationString TrimSpace probe schedule
              (mkLoop (started (NewPinger out url interval n)) 0 false))
    as (st' & w & Hrun & Hg & _ & Hcalls & _); [done |].
  destruct (run_counts DurationString TrimSpace probe schedule
              (mkLoop (started (NewPinger out url interval n)) 0 false) st')
    as [Ht Hb]; try done.
  { cbn. lia. }
  cbn [calls pinger] in Hcalls, Hb.
  unfold Ping, started in *. rewrite Hrun. cbn [mbind option_bind].
  destruct (stop st') eqn:Hstop.
  - destruct (Stop_guarded _ Hg) as (p' & HStop & _ & _ & _ & Htp & _).
    rewrite HStop. eexists. split; [reflexivity |]. cbn [pinger calls].
    split; [lia |]. split; [exact Hb | congruence].
  - exists st'. split; [done |]. split; [lia |]. by split.
Qed.

Lemma Ping_probe_count_witness :
  int64_range 2 /\
  Z.of_nat (timers interruptedSchedule) <= MaxInt64 /\
  exists st : loop,
    Ping sampleDurationString sampleTrimSpace sampleProbe interruptedSchedule
      (NewPinger [] "tcp://example.com:80" 0 2) = Some st /\
    (calls st <= timers interruptedSchedule)%nat /\
    (0 < 2 -> Z.of_nat (calls st) <= 2) /\
    total (pinger st) = Z.of_nat (calls st).
Proof.
  assert (Hn : int64_range 2) by (unfold int64_range, MinInt64, MaxInt64; lia).
  assert (Hlen : Z.of_nat (timers interruptedSchedule) <= MaxInt64)
    by (vm_compute; discriminate).
  split; [exact Hn |]. split; [exact Hlen |].
  exact (Ping_probe_count sampleDurationString sampleTrimSpace sampleProbe
           [] "tcp://example.com:80" 0 2 interruptedSchedule Hn Hlen).
Defined.

(** X4. After a [Ping] on a fresh Pinger, [Summarize] panics exactly when
    no probe was invoked: with at least one probe folded the division is
    defined. *)
Theorem Summarize_after_Ping
    (DurationString : Z -> string) (TrimSpace : string -> string)
    (probe : nat -> Stats)
    (out : list string) (url : string) (interval n : Z)
    (schedule : list event)
    (Hn : int64_range n)
    (Hlen : Z.of_nat (timers schedule) <= MaxInt64) :
  exists st : loop,
    Ping DurationString TrimSpace probe schedule (NewPinger out url interval n)
      = Some st /\
    (Summarize DurationString (pinger st) = None <-> calls st = 0%nat).
Proof.
  destruct (Ping_probe_count DurationString TrimSpace probe out url interval n
              schedule Hn Hlen) as (st & HPing & _ & _ & Ht).
  exists st. split; [exact HPing |].
  unfold Summarize, quo64. rewrite Ht.
  destruct (Z.of_nat (calls st) =? 0) eqn:E; cbn [mbind option_bind].
  - split; [lia | done].
  - split; [done | lia].
Qed.

Lemma Summarize_after_Ping_witness :
  int64_range 2 /\
  Z.of_nat (timers interruptedSchedule) <= MaxInt64 /\
  exists st : loop,
    Ping sampleDurationString sampleTrimSpace sampleProbe interruptedSchedule
      (NewPinger [] "tcp://example.com:80" 0 2) = Some st /\
    (Summarize sampleDurationString (pinger st) = None <-> calls st = 0%nat).
Proof.
  assert (Hn : int64_range 2) by (unfold int64_range, MinInt64, MaxInt64; lia).
  assert (Hlen : Z.of_nat (timers interruptedSchedule) <= MaxInt64)
    by (vm_compute; discriminate).
  split; [exact Hn |]. split; [exact Hlen |].
  exact (Summarize_after_Ping sampleDurationString sampleTrimSpace sampleProbe
           [] "tcp://example.com:80" 0 2 interruptedSchedule Hn Hlen).
Defined.

(** ** The accumulator: counts and average *)

Lemma quot_between (s N lo hi : Z) :
  0 < N -> N * lo <= s <= N * hi -> lo <= Z.quot s N <= hi.
Proof.
  intros HN [Hlo Hhi].
  pose proof (Z.quot_rem' s N) as Hqr.
  pose proof (Z.rem_bound_abs s N ltac:(lia)) as Hr.
  split.
  - destruct (Z_lt_le_dec (Z.quot s N) lo) as [Hlt | Hge]; [| done].
    assert (N * Z.quot s N <= N * (lo - 1))
      by (apply Z.mul_le_mono_nonneg_l; lia).
    lia.
  - destruct (Z_lt_le_dec hi (Z.quot s N)) as [Hlt | Hge]; [| done].
    assert (N * (hi + 1) <= N * Z.quot s N)
      by (apply Z.mul_le_mono_nonneg_l; lia).
    lia.
Qed.

Lemma sum_between (lo hi : Z) (ds : list Z) :
  Forall (fun d => lo <= d <= hi) ds ->
  Z.of_nat (length ds) * lo <= sum ds <= Z.of_nat (length ds) * hi.
Proof.
  unfold sum. induction 1 as [| d ds Hd _ IH]; cbn [foldr length]; [lia |].
  rewrite Nat2Z.inj_succ, !Z.mul_succ_l. lia.
Qed.

Lemma foldr_min_max_bound (lo hi : Z) (ds : list Z) :
  Forall (fun d => foldr Z.min hi ds <= d <= foldr Z.max lo ds) ds.
Proof.
  induction ds as [| d ds IH]; [constructor |].
  constructor; cbn [foldr]; [lia |].
  eapply Forall_impl; [exact IH |]. cbn beta. intros x Hx. lia.
Qed.

Lemma foldr_min_range (ds : list Z) :
  Forall int64_range ds -> int64_range (foldr Z.min MaxInt64 ds).
Proof.
  unfold int64_range, MinInt64, MaxInt64.
  induction 1; cbn [foldr]; lia.
Qed.

Lemma foldr_max_range (ds : list Z) :
  Forall int64_range ds -> int64_range (foldr Z.max 0 ds).
Proof.
  unfold int64_range, MinInt64, MaxInt64.
  induction 1; cbn [foldr]; lia.
Qed.

Section AccumulatorCounts.

Variable DurationString : Z -> string.
Variable TrimSpace : string -> string.

Abbreviation fold4 := (fold DurationString TrimSpace).

Lemma foldl_fold_failedTotal (p : Pinger) (records : list Stats) :
  failedTotal p = 0 ->
  Z.of_nat (length records) <= MaxInt64 ->
  failedTotal (foldl fold4 p records)
    = Z.of_nat (length (filter (fun s => hasError s = true) records)).
Proof.
  intros Hp. induction records as [| r records IH] using rev_ind.
  - intros _. by cbn.
  - rewrite length_app, foldl_app, filter_app, length_app.
    cbn [foldl length]. intros Hlen.
    destruct (fold_logStats DurationString TrimSpace
                (foldl fold4 p records) r) as (_ & _ & _ & -> & _).
    rewrite logStats_failedTotal, IH by lia.
    pose proof (length_filter (fun s => hasError s = true) records) as Hle.
    destruct (Error r) eqn:Herr.
    + rewrite filter_cons_True by (unfold hasError; by rewrite Herr).
      rewrite filter_nil. cbn [length].
      rewrite wrap64_id; [lia |].
      unfold int64_range, MinInt64, MaxInt64 in *. lia.
    + rewrite filter_cons_False by (unfold hasError; by rewrite Herr).
      rewrite filter_nil. cbn [length]. lia.
Qed.

Lemma filter_hasError_split (records : list Stats) :
  (length (filter (fun s => hasError s = true) records)
   + length (filter (fun s => hasError s = false) records))%nat
  = length records.
Proof.
  induction records as [| r records IH]; [done |].
  destruct (hasError r) eqn:Hr.
  - rewrite filter_cons_True, filter_cons_False by congruence.
    cbn [length]. lia.
  - rewrite filter_cons_False, filter_cons_True by congruence.
    cbn [length]. lia.
Qed.

End AccumulatorCounts.

(** X5. After the records of a run have been folded, the failure count is
    the number of records with an error (a cancellation among them) and
    the "successful" number of the summary, [total - failedTotal], is the
    number of records without one. *)
Theorem fold_counts_errors
    (DurationString : Z -> string) (TrimSpace : string -> string)
    (out : list string) (url : string) (interval counter : Z)
    (records : list Stats)
    (Hlen : Z.of_nat (length records) <= MaxInt64) :
  let p := foldl (fold DurationString TrimSpace)
             (started (NewPinger out url interval counter)) records in
  failedTotal p
    = Z.of_nat (length (filter (fun s => hasError s = true) records)) /\
  wrap64 (total p - failedTotal p)
    = Z.of_nat (length (filter (fun s => hasError s = false) records)).
Proof.
  intros p. subst p.
  destruct (foldl_fold_inv DurationString TrimSpace
              (started (NewPinger out url interval counter)) records)
    as [Ht _]; [| done | done |].
  { unfold accumulatorInv. cbn. lia. }
  rewrite Ht, foldl_fold_failedTotal by done.
  split; [done |].
  pose proof (filter_hasError_split records) as Hsplit.
  rewrite wrap64_id; [lia |].
  unfold int64_range, MinInt64, MaxInt64 in *. lia.
Qed.

Lemma fold_counts_errors_witness :
  Z.of_nat (length sampleRecords) <= MaxInt64 /\
  failedTotal (foldl (fold sampleDurationString sampleTrimSpace)
                 (started (NewPinger [] "tcp://example.com:80" 0 0))
                 sampleRecords) = 2.
Proof.
  assert (H : Z.of_nat (length sampleRecords) <= MaxInt64)
    by (vm_compute; discriminate).
  split; [exact H |].
  exact (proj1 (fold_counts_errors sampleDurationString sampleTrimSpace
                  [] "tcp://example.com:80" 0 0 sampleRecords H)).
Defined.

(** X6. After at least one record has been folded, and while neither the
    count nor the sum of the durations overflows, the average that
    [Summarize] computes lies between the minimum and the maximum it
    prints. *)
Theorem average_between_min_and_max
    (DurationString : Z -> string) (TrimSpace : string -> string)
    (out : list string) (url : string) (interval counter : Z)
    (r : Stats) (records : list Stats)
    (Hd : Forall (fun s => int64_range (Duration s)) (r :: records))
    (Hsum : int64_range (sum (durations (r :: records))))
    (Hlen : Z.of_nat (length (r :: records)) <= MaxInt64) :
  let p := foldl (fold DurationString TrimSpace)
             (started (NewPinger out url interval counter)) (r :: records) in
  exists average : Z,
    quo64 (totalDuration p) (total p) = Some average /\
    minDuration p <= average <= maxDuration p.
Proof.
  intros p. subst p.
  set (p0 := started (NewPinger out url interval counter)).
  destruct (foldl_fold_inv DurationString TrimSpace p0 (r :: records))
    as [Ht _]; [| done | done |].
  { unfold accumulatorInv. cbn. lia. }
  assert (Hds : Forall int64_range (durations (r :: records))).
  { unfold durations. by apply Forall_fmap. }
  rewrite Ht, foldl_fold_totalDuration, foldl_fold_minDuration,
    foldl_fold_maxDuration
    by (unfold int64_range, MinInt64, MaxInt64; cbn; lia).
  change (totalDuration p0) with 0. change (minDuration p0) with MaxInt64.
  change (maxDuration p0) with 0.
  rewrite Z.add_0_l, (wrap64_id (sum _)) by done.
  assert (HN : 0 < Z.of_nat (length (r :: records))) by (cbn [length]; lia).
  assert (Hbetween :
    foldr Z.min MaxInt64 (durations (r :: records))
      <= Z.quot (sum (durations (r :: records))) (Z.of_nat (length (r :: records)))
      <= foldr Z.max 0 (durations (r :: records))).
  { apply quot_between; [done |].
    replace (length (r :: records)) with (length (durations (r :: records)))
      by (unfold durations; apply length_map).
    apply sum_between, foldr_min_max_bound. }
  pose proof (foldr_min_range _ Hds) as Hmin.
  pose proof (foldr_max_range _ Hds) as Hmax.
  eexists. split; [| exact Hbetween].
  unfold quo64. destruct (Z.of_nat (length (r :: records)) =? 0) eqn:E; [lia |].
  f_equal. apply wrap64_id.
  unfold int64_range, MinInt64, MaxInt64 in *. lia.
Qed.

Lemma average_between_min_and_max_witness :
  Forall (fun s => int64_range (Duration s)) sampleRecords /\
  int64_range (sum (durations sampleRecords)) /\
  Z.of_nat (length sampleRecords) <= MaxInt64 /\
  exists average : Z,
    quo64 (totalDuration
             (foldl (fold sampleDurationString sampleTrimSpace)
                (started (NewPinger [] "tcp://example.com:80" 0 0)) sampleRecords))
          (total
             (foldl (fold sampleDurationString sampleTrimSpace)
                (started (NewPinger [] "tcp://example.com:80" 0 0)) sampleRecords))
      = Some average /\
    minDuration
      (foldl (fold sampleDurationString sampleTrimSpace)
         (started (NewPinger [] "tcp://example.com:80" 0 0)) sampleRecords)
    <= average <=
    maxDuration
      (foldl (fold sampleDurationString sampleTrimSpace)
         (started (NewPinger [] "tcp://example.com:80" 0 0)) sampleRecords).
Proof.
  assert (Hd : Forall (fun s => int64_range (Duration s)) sampleRecords).
  { repeat constructor; cbn; unfold MinInt64, MaxInt64; lia. }
  assert (Hsum : int64_range (sum (durations sampleRecords))).
  { cbn. unfold int64_range, MinInt64, MaxInt64. lia. }
  assert (Hlen : Z.of_nat (length sampleRecords) <= MaxInt64)
    by (vm_compute; discriminate).
  split; [exact Hd |]. split; [exact Hsum |]. split; [exact Hlen |].
  exact (average_between_min_and_max sampleDurationString sampleTrimSpace
           [] "tcp://example.com:80" 0 0 _ _ Hd Hsum Hlen).
Defined.

(** ** The normalizer: its outputs *)

Lemma prefix_split (p s : string) :
  String.prefix p s = true -> exists t, s = p +:+ t.
Proof.
  revert s. induction p as [| a p IH]; intros s H.
  - by exists s.
  - destruct s as [| b s]; [done |]. cbn in H.
    destruct (Ascii.ascii_dec a b) as [-> | _]; [| done].
    destruct (IH s H) as [t ->]. by exists t.
Qed.

Lemma Contains_prefix (s sub : string) :
  String.prefix sub s = true -> Contains s sub = true.
Proof. intros H. destruct s; cbn [Contains]; by rewrite H. Qed.

Lemma Contains_cons (c : ascii) (s sub : string) :
  Contains s sub = true -> Contains (String c s) sub = true.
Proof. intros H. cbn [Contains]. rewrite H. apply orb_true_r. Qed.

Lemma Contains_app_l (a s sub : string) :
  Contains s sub = true -> Contains (a +:+ s) sub = true.
Proof.
  intros H. induction a as [| c a IH]; [done |].
  cbn [String.append]. by apply Contains_cons.
Qed.

Lemma Contains_app (a sub b : string) : Contains (a +:+ sub +:+ b) sub = true.
Proof. apply Contains_app_l, Contains_prefix, prefix_append. Qed.

Lemma prefix_app_l (a b s : string) :
  String.prefix (a +:+ b) s = true -> String.prefix a s = true.
Proof.
  revert s. induction a as [| c a IH]; intros s H.
  - by destruct s.
  - destruct s as [| d s]; [done |].
    change (String c a +:+ b) with (String c (a +:+ b)) in H.
    cbn [String.prefix] in H |- *.
    destruct (Ascii.ascii_dec c d); [exact (IH s H) | done].
Qed.

(** A text that contains [a ++ b] contains [a] and contains [b]. *)
Lemma Contains_part_l (s a b : string) :
  Contains s (a +:+ b) = true -> Contains s a = true.
Proof.
  induction s as [| c s IH]; cbn [Contains]; intros H.
  - apply orb_true_iff in H as [H | H]; [| done].
    apply prefix_app_l in H. by rewrite H.
  - apply orb_true_iff in H as [H | H].
    + apply prefix_app_l in H. by rewrite H.
    + rewrite (IH H). apply orb_true_r.
Qed.

Lemma append_assoc3 (a b c : string) : (a +:+ b) +:+ c = a +:+ b +:+ c.
Proof.
  induction a as [| x a IH]; [done |].
  change (String x ((a +:+ b) +:+ c) = String x (a +:+ b +:+ c)).
  by f_equal.
Qed.

Lemma prefix_Contains_r (s a b : string) :
  String.prefix (a +:+ b) s = true -> Contains s b = true.
Proof.
  intros H. apply prefix_split in H as [t ->].
  rewrite append_assoc3. apply Contains_app.
Qed.

Lemma Contains_part_r (s a b : string) :
  Contains s (a +:+ b) = true -> Contains s b = true.
Proof.
  induction s as [| c s IH]; intros H.
  - cbn [Contains] in H. apply orb_true_iff in H as [H | H]; [| done].
    by eapply prefix_Contains_r.
  - cbn [Contains] in H. apply orb_true_iff in H as [H | H].
    + by eapply prefix_Contains_r.
    + by apply Contains_cons, IH.
Qed.

(** X7. The last row of the phrase table is dead: a text that contains
    "was forcibly closed by the remote host" contains "forcibly closed",
    the first row, so it gets the first row's category. *)
Theorem last_phrase_never_wins (text : string)
    (Hlast : Contains text "was forcibly closed by the remote host" = true) :
  substringCategory text = "远程主机强行关闭了现有连接" /\
  substringCategory text <> "远程主机强制关闭了现有连接".
Proof.
  assert (Hfirst : Contains text "forcibly closed" = true).
  { apply (Contains_part_l text "forcibly closed" " by the remote host").
    by apply (Contains_part_r text "was "
                ("forcibly closed" +:+ " by the remote host")). }
  unfold substringCategory. rewrite Hfirst.
  split; [reflexivity | discriminate].
Qed.

Lemma last_phrase_never_wins_witness :
  Contains "read tcp: connection was forcibly closed by the remote host."
           "was forcibly closed by the remote host" = true /\
  substringCategory
    "read tcp: connection was forcibly closed by the remote host."
    = "远程主机强行关闭了现有连接".
Proof.
  split; [reflexivity |].
  exact (proj1 (last_phrase_never_wins
                  "read tcp: connection was forcibly closed by the remote host."
                  eq_refl)).
Defined.

(** What the typed checks decide does not depend on the timeout text,
    except that it is the category they return for a timeout. *)
Lemma layerOutcome_shape (e : error) :
  (forall l, layerOutcome l e = Category l) \/
  (exists c, c ∈ typedCategories /\ forall l, layerOutcome l e = Category c) \/
  (exists cause, (depth cause < depth e)%nat /\
                 forall l, layerOutcome l e = Unwrapped cause) \/
  (forall l, layerOutcome l e = Leaf).
Proof.
  unfold layerOutcome, typedCategories.
  generalize (asserted (Timeout e)). intros t.
  generalize (asserted (Temporary e)). intros tmp.
  generalize (errors_Is IsDeadlineExceeded e). intros deadline.
  generalize (is_net_Error e). intros net.
  destruct e as [| | | s | msg inner | n text | call inner
                | name server derr isTimeout isTemporary
                | op net' source addr inner | op url inner
                | text timeout temporary isC isD cause];
    cbn [is_EOF depth];
    try (destruct inner as [| | | | | | ? ? | | | |]);
    destruct t, tmp, deadline, net;
    first
      [ by left
      | right; left; eexists; split; [| by intros l];
        apply list_elem_of_In; cbn [In]; tauto
      | right; right; left; eexists; split; [| by intros l]; cbn [depth]; lia
      | by right; right; right ].
Qed.

Lemma firstMatch_range (table : list (string * string)) (text : string) :
  firstMatch table text ∈ map snd table \/ firstMatch table text = text.
Proof.
  unfold firstMatch.
  destruct (find (fun row => Contains text row.1) table) as [row |] eqn:Hfind;
    [left | by right].
  apply find_some in Hfind as [Hin _].
  by apply list_elem_of_In, in_map.
Qed.

(** X8. The normalizer returns the timeout text, one of the three typed
    categories, a category of the phrase table, or the unchanged text of
    the layer it stopped at; nothing else. *)
Theorem formatErrorWith_range (timedOut : string) (err : error) :
  exists layer : error,
    unwrapsTo timedOut err layer /\
    (formatErrorWith timedOut err
       ∈ (timedOut :: typedCategories ++ map snd phraseTable)%list \/
     formatErrorWith timedOut err = Error_text layer).
Proof.
  remember (depth err) as k eqn:Hk. revert err Hk.
  induction k as [k IH] using lt_wf_ind. intros err ->.
  rewrite formatErrorWith_layer.
  destruct (layerOutcome_shape err)
    as [H | [(c & Hc & H) | [(cause & Hlt & H) | H]]]; rewrite (H timedOut).
  - exists err. split; [constructor |]. left. apply list_elem_of_here.
  - exists err. split; [constructor |]. left.
    apply list_elem_of_further, elem_of_app. by left.
  - destruct (IH (depth cause) Hlt cause eq_refl) as (layer & Hreach & Hres).
    exists layer. split; [| exact Hres].
    eapply unwrapsTo_cause; [apply H | exact Hreach].
  - exists err. split; [constructor |].
    destruct (firstMatch_range phraseTable (Error_text err)) as [Hin | ->];
      [left | by right].
    apply list_elem_of_further, elem_of_app. by right.
Qed.

(** X9. A [syscall.Errno] below a [*net.OpError] and a [*os.SyscallError]
    is normalized exactly as the bare errno: the timeout text for a
    timeout errno, "temporary error" for a temporary one, and otherwise
    whatever the phrase table makes of the errno's text. The errno switch
    of the source (ECONNREFUSED, ETIMEDOUT) is never reached. *)
Theorem errno_normalized_by_text
    (timedOut : string) (op net : string) (source addr : option string)
    (call : string) (n : Z) (text : string) :
  formatErrorWith timedOut
    (OpError op net source addr (SyscallError call (Errno n text)))
    = formatErrorWith timedOut (Errno n text) /\
  formatErrorWith timedOut (Errno n text) =
    (if (n =? EAGAIN) || (n =? ETIMEDOUT) then timedOut
     else if (n =? EINTR) || (n =? EMFILE) || (n =? ENFILE)
          then "网络临时错误"
          else substringCategory text).
Proof.
  assert (Herrno :
    formatErrorWith timedOut (Errno n text) =
      (if (n =? EAGAIN) || (n =? ETIMEDOUT) then timedOut
       else if (n =? EINTR) || (n =? EMFILE) || (n =? ENFILE)
            then "网络临时错误"
            else substringCategory text)).
  { rewrite formatErrorWith_unfold. unfold afterTypeSwitch.
    cbn [is_net_Error Timeout Temporary asserted default from_option id
         is_EOF opErrCategory andb Error_text].
    destruct ((n =? EAGAIN) || (n =? ETIMEDOUT)) eqn:Ht; [done |].
    rewrite orb_false_r.
    by destruct ((n =? EINTR) || (n =? EMFILE) || (n =? ENFILE)). }
  split; [| exact Herrno].
  rewrite Herrno, formatErrorWith_layer. unfold layerOutcome.
  cbn [is_net_Error Timeout Temporary asserted default from_option id].
  destruct ((n =? EAGAIN) || (n =? ETIMEDOUT)) eqn:Ht; [done |].
  by rewrite Herrno.
Qed.

(** X10. [FormatError] and [Pinger.formatError] agree on every error,
    except that where one returns its timeout text the other returns its
    own. *)
Theorem FormatError_formatError_agree (err : error) :
  (FormatError err = "连接超时" /\ formatError err = "超时") \/
  FormatError err = formatError err.
Proof.
  unfold FormatError, formatError.
  remember (depth err) as k eqn:Hk. revert err Hk.
  induction k as [k IH] using lt_wf_ind. intros err ->.
  rewrite !formatErrorWith_layer.
  destruct (layerOutcome_shape err)
    as [H | [(c & Hc & H) | [(cause & Hlt & H) | H]]]; rewrite !H.
  - by left.
  - by right.
  - exact (IH (depth cause) Hlt cause eq_refl).
  - by right.
Qed.

(** ** The registry over a sequence of calls *)

(** X11. After any sequence of [Register] calls, [Load] returns the
    factory of the last call that names the protocol, whatever was
    registered before or for other protocols after it. *)
Theorem Load_returns_last_registration
    (F : Type) (p : Protocol) (f : Factory F)
    (earlier later : list (Protocol * Factory F))
    (pinger : gmap Z (Factory F))
    (Hlater : Forall (fun c => c.1 <> p) later) :
  Load F p (registered F (earlier ++ (p, f) :: later) pinger) = f.
Proof.
  unfold registered. rewrite foldl_app. cbn [foldl fst snd].
  change (foldl (fun m c => Register F c.1 c.2 m) ?m later)
    with (registered F later m).
  rewrite Load_registered_other by done.
  apply Load_Register_eq.
Qed.

Lemma Load_returns_last_registration_witness :
  Forall (fun c : Protocol * Factory nat => c.1 <> HTTP) [(HTTPS, Some 3%nat)] /\
  Load nat HTTP
    (registered nat ([(HTTP, Some 1%nat); (TCP, None)]
                       ++ (HTTP, Some 2%nat) :: [(HTTPS, Some 3%nat)]) ∅)
    = Some 2%nat.
Proof.
  assert (H : Forall (fun c : Protocol * Factory nat => c.1 <> HTTP)
                [(HTTPS, Some 3%nat)]) by (repeat constructor; done).
  split; [exact H |].
  exact (Load_returns_last_registration nat HTTP (Some 2%nat)
           [(HTTP, Some 1%nat); (TCP, None)] [(HTTPS, Some 3%nat)] ∅ H).
Defined.

(** ** Protocol names *)

(** X12. [NewProtocol] undoes [Protocol.String] exactly on TCP, HTTP and
    HTTPS: any other protocol value prints as "unknown", which
    [NewProtocol] rejects. *)
Theorem NewProtocol_String_round_trip
    (mapToLower : string -> string) (p : Protocol) :
  NewProtocol mapToLower (Protocol_String p) = (p, None)
  <-> p = TCP \/ p = HTTP \/ p = HTTPS.
Proof.
  unfold Protocol_String, TCP, HTTP, HTTPS.
  destruct (Z.eqb_spec p 0) as [-> | H0]; [by split; [left |] |].
  destruct (Z.eqb_spec p 1) as [-> | H1]; [by split; [right; left |] |].
  destruct (Z.eqb_spec p 2) as [-> | H2]; [by split; [right; right |] |].
  split; [| lia]. intros H. vm_compute in H. discriminate.
Qed.

(** X13. When [NewProtocol] succeeds, the protocol is one of the three and
    its name is the lower-cased input; when it fails, it returns protocol
    0, which is TCP, together with an error that quotes the input as it
    was written. *)
Theorem NewProtocol_outcome (mapToLower : string -> string) (s : string) :
  match NewProtocol mapToLower s with
  | (p, None) =>
      (p = TCP \/ p = HTTP \/ p = HTTPS) /\
      Protocol_String p = ToLower mapToLower s
  | (p, Some err) =>
      p = TCP /\
      Error_text err = "protocol " +:+ s +:+ " not support" /\
      ToLower mapToLower s <> "tcp" /\ ToLower mapToLower s <> "http" /\
      ToLower mapToLower s <> "https"
  end.
Proof.
  unfold NewProtocol. cbv zeta.
  change (Protocol_String TCP) with "tcp".
  change (Protocol_String HTTP) with "http".
  change (Protocol_String HTTPS) with "https".
  destruct (String.eqb_spec (ToLower mapToLower s) "tcp") as [-> | Ht];
    [by split; [left |] |].
  destruct (String.eqb_spec (ToLower mapToLower s) "http") as [-> | Hh];
    [by split; [right; left |] |].
  destruct (String.eqb_spec (ToLower mapToLower s) "https") as [-> | Hs];
    [by split; [right; right |] |].
  by repeat split.
Qed.

(** ** FormatMeta *)

Lemma string_le_total : Total string_le.
Proof. intros a b. unfold string_le. apply String.leb_total. Qed.

Lemma append_empty_r (s : string) : s +:+ EmptyString = s.
Proof.
  induction s as [| c s IH]; [done |].
  change (String c (s +:+ EmptyString) = String c s). by f_equal.
Qed.

Lemma writeMeta_concat (meta : gmap string string) (keys : list string) :
  writeMeta meta keys =
    String.concat " "
      (map (fun key => key +:+ "=" +:+ default EmptyString (meta !! key)) keys).
Proof.
  induction keys as [| key rest IH]; [done |].
  cbn [writeMeta map String.concat]. rewrite IH.
  destruct rest as [| key' rest].
  - cbn [map String.concat]. by rewrite !append_empty_r.
  - cbn [map]. by rewrite !append_assoc3.
Qed.

(** X14. [FormatMeta] writes each key of the metadata once, as key=value,
    in ascending byte order, with one space between two entries and none
    at the end; empty metadata gives the empty string. *)
Theorem FormatMeta_sorted_entries (stats : Stats) :
  exists keys : list string,
    keys ≡ₚ map fst (map_to_list (Meta stats)) /\
    NoDup keys /\
    Sorted string_le keys /\
    FormatMeta stats =
      String.concat " "
        (map (fun key => key +:+ "=" +:+ default EmptyString (Meta stats !! key))
             keys) /\
    (Meta stats = ∅ -> FormatMeta stats = EmptyString).
Proof.
  exists (merge_sort string_le (map fst (map_to_list (Meta stats)))).
  split; [apply merge_sort_Permutation |].
  split; [rewrite merge_sort_Permutation; apply NoDup_fst_map_to_list |].
  split; [apply (@Sorted_merge_sort string string_le _ string_le_total) |].
  split; [apply writeMeta_concat |].
  intros Hempty. unfold FormatMeta. cbv zeta.
  by rewrite Hempty, map_to_list_empty.
Qed.

(** ** utils.go: FormatIP and ParseAddress *)

Lemma TrimLeft_startsClean (cutset s : string) :
  startsClean cutset (TrimLeft cutset s).
Proof.
  induction s as [| c s IH]; [done |]. cbn [TrimLeft].
  by destruct (inCutset cutset c) eqn:Hc.
Qed.

Lemma TrimLeft_clean (cutset s : string) :
  startsClean cutset s -> TrimLeft cutset s = s.
Proof. destruct s as [| c s]; [done |]. cbn. by intros ->. Qed.

Lemma TrimRight_startsClean (cutset s : string) :
  startsClean cutset s -> startsClean cutset (TrimRight cutset s).
Proof.
  destruct s as [| c s]; [done |]. cbn [startsClean TrimRight]. intros Hc.
  destruct (TrimRight cutset s); [by rewrite Hc | done].
Qed.

Lemma TrimRight_idem (cutset s : string) :
  TrimRight cutset (TrimRight cutset s) = TrimRight cutset s.
Proof.
  induction s as [| c s IH]; [done |]. cbn [TrimRight].
  destruct (TrimRight cutset s) as [| k kept] eqn:E.
  - destruct (inCutset cutset c) eqn:Hc; [done |].
    cbn [TrimRight]. by rewrite Hc.
  - cbn [TrimRight] in IH |- *.
    destruct (TrimRight cutset kept) eqn:E'.
    + destruct (inCutset cutset k); [done |]. by injection IH as ->.
    + by rewrite IH.
Qed.

Lemma Trim_idem (cutset s : string) :
  Trim (Trim s cutset) cutset = Trim s cutset.
Proof.
  unfold Trim.
  rewrite (TrimLeft_clean cutset (TrimRight cutset (TrimLeft cutset s))).
  - apply TrimRight_idem.
  - apply TrimRight_startsClean, TrimLeft_startsClean.
Qed.

Lemma TrimRight_snoc (cutset s : string) (c : ascii) :
  inCutset cutset c = true ->
  TrimRight cutset (s +:+ String c EmptyString) = TrimRight cutset s.
Proof.
  intros Hc. induction s as [| x s IH].
  - change (EmptyString +:+ String c EmptyString) with (String c EmptyString).
    cbn [TrimRight]. by rewrite Hc.
  - change (String x s +:+ String c EmptyString)
      with (String x (s +:+ String c EmptyString)).
    cbn [TrimRight]. by rewrite IH.
Qed.

Lemma Trim_cons (cutset s : string) (c : ascii) :
  inCutset cutset c = true -> Trim (String c s) cutset = Trim s cutset.
Proof. intros Hc. unfold Trim. cbn [TrimLeft]. by rewrite Hc. Qed.

Lemma Trim_snoc (cutset s : string) (c : ascii) :
  inCutset cutset c = true ->
  Trim (s +:+ String c EmptyString) cutset = Trim s cutset.
Proof.
  intros Hc. unfold Trim. induction s as [| x s IH].
  - change (EmptyString +:+ String c EmptyString) with (String c EmptyString).
    cbn [TrimLeft]. by rewrite Hc.
  - change (String x s +:+ String c EmptyString)
      with (String x (s +:+ String c EmptyString)).
    cbn [TrimLeft]. destruct (inCutset cutset x); [exact IH |].
    apply (TrimRight_snoc cutset (String x s) c Hc).
Qed.

Lemma Trim_bracketed (h : string) :
  Trim h "[ ]" = h -> Trim ("[" +:+ h +:+ "]") "[ ]" = h.
Proof.
  intros Hh.
  change ("[" +:+ h +:+ "]") with (String "[" (h +:+ String "]" EmptyString)).
  rewrite Trim_cons by done. by rewrite Trim_snoc.
Qed.

(** X15. What [FormatIP] returns for a valid address is a fixed point:
    formatting it again gives the same text, brackets of an IPv6 address
    included. *)
Theorem FormatIP_idempotent
    (ParseIP : string -> option bool) (IP formatted : string)
    (Hok : FormatIP ParseIP IP = (formatted, None)) :
  FormatIP ParseIP formatted = (formatted, None).
Proof.
  unfold FormatIP in *. cbv zeta in *.
  pose proof (Trim_idem "[ ]" IP) as Hidem.
  destruct (ParseIP (Trim IP "[ ]")) as [[] |] eqn:Hparse; [| | done].
  - injection Hok as <-. by rewrite Hidem, Hparse.
  - injection Hok as <-. by rewrite (Trim_bracketed _ Hidem), Hparse.
Qed.

Lemma FormatIP_idempotent_witness :
  FormatIP sampleParseIP " [::1] " = ("[::1]", None) /\
  FormatIP sampleParseIP "[::1]" = ("[::1]", None).
Proof.
  assert (H : FormatIP sampleParseIP " [::1] " = ("[::1]", None))
    by reflexivity.
  split; [exact H |].
  exact (FormatIP_idempotent sampleParseIP " [::1] " "[::1]" H).
Defined.

(** X16. [FormatIP] does not look at brackets and spaces around the
    address, balanced or not: one more of them in front or at the end
    changes nothing. *)
Theorem FormatIP_ignores_surrounding
    (ParseIP : string -> option bool) (IP : string) (c : ascii)
    (Hc : inCutset "[ ]" c = true) :
  FormatIP ParseIP (String c IP) = FormatIP ParseIP IP /\
  FormatIP ParseIP (IP +:+ String c EmptyString) = FormatIP ParseIP IP.
Proof.
  unfold FormatIP. cbv zeta. by rewrite Trim_cons, Trim_snoc.
Qed.

Lemma FormatIP_ignores_surrounding_witness :
  inCutset "[ ]" "[" = true /\
  FormatIP sampleParseIP "[127.0.0.1" = FormatIP sampleParseIP "127.0.0.1".
Proof.
  split; [reflexivity |].
  exact (proj1 (FormatIP_ignores_surrounding sampleParseIP "127.0.0.1" "["
                  eq_refl)).
Defined.

(** X17. [ParseAddress] gives an address without "://" the scheme tcp, so
    that writing the scheme out changes nothing; an address with "://"
    anywhere in it goes to [url.Parse] as it is. *)
Theorem ParseAddress_defaults_to_tcp
    (U : Type) (url_Parse : string -> U) (addr : string)
    (Hbare : Contains addr "://" = false) :
  ParseAddress U url_Parse addr = url_Parse ("tcp://" +:+ addr) /\
  ParseAddress U url_Parse ("tcp://" +:+ addr) = ParseAddress U url_Parse addr /\
  (forall a b : string,
      ParseAddress U url_Parse (a +:+ "://" +:+ b)
        = url_Parse (a +:+ "://" +:+ b)).
Proof.
  unfold ParseAddress. rewrite Hbare.
  split; [done |]. split.
  - change ("tcp://" +:+ addr) with ("tcp" +:+ "://" +:+ addr).
    by rewrite Contains_app.
  - intros a b. by rewrite Contains_app.
Qed.

Lemma ParseAddress_defaults_to_tcp_witness :
  Contains "example.com:80" "://" = false /\
  ParseAddress string (fun s => s) "example.com:80" = "tcp://example.com:80".
Proof.
  split; [reflexivity |].
  exact (proj1 (ParseAddress_defaults_to_tcp string (fun s => s)
                  "example.com:80" eq_refl)).
Defined.

(** ** utils.go: ParseDuration *)

Lemma parseDigits_acc (d : Decimal.uint) (acc : positive) :
  parseDigits (NilEmpty.string_of_uint d) (Z.pos acc)
    = Some (Z.pos (Pos.of_uint_acc d acc)).
Proof.
  revert acc.
  induction d as [| d IH | d IH | d IH | d IH | d IH | d IH | d IH | d IH
                 | d IH | d IH]; intros acc;
    cbn [NilEmpty.string_of_uint Pos.of_uint_acc parseDigits]; [done | ..];
    match goal with
    | |- context [digitValue ?c] =>
        let v := eval vm_compute in (digitValue c) in
        change (digitValue c) with v
    end;
    cbv iota beta; rewrite <- IH; f_equal; lia.
Qed.

Lemma parseDigits_of_uint (d : Decimal.uint) :
  parseDigits (NilEmpty.string_of_uint d) 0 = Some (Z.of_N (Pos.of_uint d)).
Proof.
  induction d as [| d IH | d IH | d IH | d IH | d IH | d IH | d IH | d IH
                 | d IH | d IH];
    cbn [NilEmpty.string_of_uint Pos.of_uint parseDigits]; [done | ..];
    match goal with
    | |- context [digitValue ?c] =>
        let v := eval vm_compute in (digitValue c) in
        change (digitValue c) with v
    end;
    cbv iota beta; [exact IH | ..];
    cbn [Z.of_N]; rewrite <- parseDigits_acc; f_equal.
Qed.

Lemma digit_is_no_sign (c : ascii) (d : Z) :
  digitValue c = Some d -> Ascii.eqb c "+" = false /\ Ascii.eqb c "-" = false.
Proof.
  intros Hd. split.
  - destruct (Ascii.eqb_spec c "+") as [-> | _]; [| done].
    vm_compute in Hd. discriminate.
  - destruct (Ascii.eqb_spec c "-") as [-> | _]; [| done].
    vm_compute in Hd. discriminate.
Qed.

Lemma ParseInt_unsigned (s : string) (v : Z) :
  s <> EmptyString -> parseDigits s 0 = Some v -> v < 2 ^ 63 ->
  ParseInt s = Some v.
Proof.
  intros Hs Hparse Hv. destruct s as [| c rest]; [done |].
  assert (Hd : exists d, digitValue c = Some d).
  { cbn [parseDigits] in Hparse. destruct (digitValue c); [eauto | done]. }
  destruct Hd as [d Hd].
  destruct (digit_is_no_sign c d Hd) as [Hplus Hminus].
  unfold ParseInt. cbv zeta. rewrite Hplus, Hminus.
  cbn [orb negb andb]. rewrite Hparse. cbn [mbind option_bind].
  destruct (Z.leb_spec (2 ^ 63) v); [lia | done].
Qed.

Lemma ParseInt_negative (s : string) (v : Z) :
  s <> EmptyString -> parseDigits s 0 = Some v -> v <= 2 ^ 63 ->
  ParseInt (String "-" s) = Some (- v).
Proof.
  intros Hs Hparse Hv. unfold ParseInt. cbv zeta.
  change (Ascii.eqb "-" "-") with true. change (Ascii.eqb "-" "+") with false.
  cbn [orb negb andb]. destruct s as [| c rest]; [done |].
  rewrite Hparse. cbn [mbind option_bind].
  destruct (Z.ltb_spec (2 ^ 63) v); [lia | done].
Qed.

Lemma string_of_uint_nonempty (d : Decimal.uint) :
  d <> Decimal.Nil -> NilEmpty.string_of_uint d <> EmptyString.
Proof. by destruct d. Qed.

Lemma ParseInt_itoa (n : Z) : int64_range n -> ParseInt (itoa n) = Some n.
Proof.
  unfold int64_range, MinInt64, MaxInt64, itoa. intros Hn.
  destruct n as [| p | p]; [done | |].
  - cbn [Z.to_int NilZero.string_of_int].
    pose proof (Unsigned.to_uint_nonnil p) as Hnil.
    assert (Hstr : NilZero.string_of_uint (Pos.to_uint p)
                   = NilEmpty.string_of_uint (Pos.to_uint p))
      by (by destruct (Pos.to_uint p)).
    rewrite Hstr. apply ParseInt_unsigned.
    + by apply string_of_uint_nonempty.
    + by rewrite parseDigits_of_uint, Unsigned.of_to.
    + lia.
  - cbn [Z.to_int NilZero.string_of_int].
    pose proof (Unsigned.to_uint_nonnil p) as Hnil.
    assert (Hstr : NilZero.string_of_uint (Pos.to_uint p)
                   = NilEmpty.string_of_uint (Pos.to_uint p))
      by (by destruct (Pos.to_uint p)).
    rewrite Hstr.
    change (Z.neg p) with (- Z.pos p). apply ParseInt_negative.
    + by apply string_of_uint_nonempty.
    + by rewrite parseDigits_of_uint, Unsigned.of_to.
    + lia.
Qed.

(** X18. [ParseDuration] reads a bare integer, as [%d] prints it, as that
    many milliseconds without consulting [time.ParseDuration]; the product
    is taken in int64, so it is the exact number of nanoseconds up to
    9223372036854 ms and wraps around beyond. *)
Theorem ParseDuration_bare_integer
    (time_ParseDuration : string -> Z * option error) (n : Z)
    (Hn : int64_range n) :
  ParseDuration time_ParseDuration (itoa n)
    = (wrap64 (n * Millisecond), None) /\
  (- 9223372036854 <= n <= 9223372036854 ->
   ParseDuration time_ParseDuration (itoa n) = (n * Millisecond, None)).
Proof.
  unfold ParseDuration. rewrite (ParseInt_itoa n Hn).
  split; [done |]. intros Hsmall. f_equal.
  apply wrap64_id. unfold int64_range, MinInt64, MaxInt64, Millisecond. lia.
Qed.

Lemma ParseDuration_bare_integer_witness :
  int64_range 1500 /\
  ParseDuration (fun _ => (0, Some EOF)) "1500" = (1500000000, None).
Proof.
  assert (Hn : int64_range 1500)
    by (unfold int64_range, MinInt64, MaxInt64; lia).
  split; [exact Hn |].
  exact (proj2 (ParseDuration_bare_integer (fun _ => (0, Some EOF)) 1500 Hn)
           ltac:(lia)).
Defined.

(** X19. A text that [strconv.ParseInt] reads as the integer [v] means
    [v] milliseconds whatever else [time.ParseDuration] would have made of
    it; an explicit plus sign and leading zeros are accepted, and a
    decimal text without a sign that is too large for an int64 is left to
    [time.ParseDuration]. *)
Theorem ParseDuration_digits
    (time_ParseDuration : string -> Z * option error)
    (digits : string) (v : Z)
    (Hne : digits <> EmptyString)
    (Hv : parseDigits digits 0 = Some v) :
  (v < 2 ^ 63 ->
   ParseDuration time_ParseDuration digits = (wrap64 (v * Millisecond), None) /\
   ParseDuration time_ParseDuration (String "+" digits)
     = (wrap64 (v * Millisecond), None) /\
   ParseDuration time_ParseDuration (String "0" digits)
     = (wrap64 (v * Millisecond), None)) /\
  (2 ^ 63 <= v ->
   ParseDuration time_ParseDuration digits = time_ParseDuration digits).
Proof.
  assert (Hd : exists c rest d, digits = String c rest /\ digitValue c = Some d).
  { destruct digits as [| c rest]; [done |].
    cbn [parseDigits] in Hv. destruct (digitValue c) eqn:E; [eauto | done]. }
  destruct Hd as (c & rest & d & -> & Hd).
  destruct (digit_is_no_sign c d Hd) as [Hplus Hminus].
  split.
  - intros Hfit. unfold ParseDuration.
    rewrite (ParseInt_unsigned (String c rest) v) by done.
    rewrite (ParseInt_unsigned (String "0" (String c rest)) v) by done.
    split; [done |]. split; [| done].
    unfold ParseInt. cbv zeta.
    change (Ascii.eqb "+" "+") with true. change (Ascii.eqb "+" "-") with false.
    cbn [orb negb andb]. rewrite Hv. cbn [mbind option_bind].
    by destruct (Z.leb_spec (2 ^ 63) v); [lia |].
  - intros Hbig. unfold ParseDuration, ParseInt. cbv zeta.
    rewrite Hplus, Hminus. cbn [orb negb andb]. rewrite Hv.
    cbn [mbind option_bind].
    by destruct (Z.leb_spec (2 ^ 63) v); [| lia].
Qed.

Lemma ParseDuration_digits_witness :
  "0250" <> EmptyString /\ parseDigits "0250" 0 = Some 250 /\
  ParseDuration (fun _ => (0, Some EOF)) "+0250" = (250000000, None).
Proof.
  assert (Hne : "0250" <> EmptyString) by discriminate.
  assert (Hv : parseDigits "0250" 0 = Some 250) by reflexivity.
  split; [exact Hne |]. split; [exact Hv |].
  exact (proj1 (proj2 (proj1 (ParseDuration_digits (fun _ => (0, Some EOF))
                                "0250" 250 Hne Hv) ltac:(lia)))).
Defined.

(** ** Result.Avg *)

(** X20. For a non-negative total and a positive success count,
    [Result.Avg] is the average rounded down: it lies between 0 and the
    total, and the count times the average misses the total by less than
    the count. *)
Theorem Avg_rounds_down (result : Result)
    (Htotal : 0 <= TotalDuration result <= MaxInt64)
    (Hcount : 0 < SuccessCounter result <= MaxInt64) :
  exists average : Z,
    Avg result = Some average /\
    0 <= average <= TotalDuration result /\
    SuccessCounter result * average <= TotalDuration result
      < SuccessCounter result * (average + 1).
Proof.
  unfold Avg. destruct (SuccessCounter result =? 0) eqn:E; [lia |].
  unfold MaxInt64 in *.
  rewrite quo64_exact;
    try (unfold int64_range, MinInt64, MaxInt64; lia).
  exists (Z.quot (TotalDuration result) (SuccessCounter result)).
  split; [done |].
  rewrite Z.quot_div_nonneg by lia.
  pose proof (Z.div_mod (TotalDuration result) (SuccessCounter result)
                ltac:(lia)) as Hdm.
  pose proof (Z.mod_pos_bound (TotalDuration result) (SuccessCounter result)
                ltac:(lia)) as Hmod.
  pose proof (Z.div_pos (TotalDuration result) (SuccessCounter result)
                ltac:(lia) ltac:(lia)) as Hpos.
  pose proof (Z.div_le_upper_bound (TotalDuration result)
                (SuccessCounter result) (TotalDuration result)
                ltac:(lia) ltac:(nia)) as Hle.
  repeat split; lia.
Qed.

Lemma Avg_rounds_down_witness :
  0 <= TotalDuration (mkResult 3 3 0 0 10) <= MaxInt64 /\
  0 < SuccessCounter (mkResult 3 3 0 0 10) <= MaxInt64 /\
  exists average : Z,
    Avg (mkResult 3 3 0 0 10) = Some average /\
    0 <= average <= 10 /\ 3 * average <= 10 < 3 * (average + 1).
Proof.
  assert (H1 : 0 <= TotalDuration (mkResult 3 3 0 0 10) <= MaxInt64)
    by (cbn; unfold MaxInt64; lia).
  assert (H2 : 0 < SuccessCounter (mkResult 3 3 0 0 10) <= MaxInt64)
    by (cbn; unfold MaxInt64; lia).
  split; [exact H1 |]. split; [exact H2 |].
  exact (Avg_rounds_down (mkResult 3 3 0 0 10) H1 H2).
Defined.


Lemma FormatMeta_sorted_entries_witness :
  Meta cancelledStats = ∅ /\ FormatMeta cancelledStats = EmptyString.
Proof.
  split; [reflexivity |].
  destruct (FormatMeta_sorted_entries cancelledStats)
    as (keys & _ & _ & _ & _ & Hempty).
  exact (Hempty eq_refl).
Defined.
